(** * The Event resource controller (server/api/event/event.controller.js)

    A shallow embedding of the controller: JSON values as the handlers see
    them, the response object as the list of method calls made on it, the
    promise chains as a state-and-rejection monad over a world that holds the
    Event collection, and the external collaborators (the JSON-Patch applier,
    the regular-expression engine, reference population, store failures, the
    identifier generator) as an interface. *)

From Stdlib Require Import ZArith String Ascii List Lia.
From stdpp Require Import base option list strings pretty.

Local Open Scope Z_scope.
Local Open Scope string_scope.

#[local] Set Warnings "-register-all".

(** ** JavaScript values *)

(** What a request body, a document or an error can be. Objects keep their
    properties in insertion order. The controller only ever tests a number
    for truthiness, so numbers are kept as integers. *)
Inductive value : Type :=
| VUndefined
| VNull
| VBool (b : bool)
| VNum (n : Z)
| VStr (s : string)
| VArr (items : list value)
| VObj (props : list (string * value)).

(** [if (v)]: the falsy values are undefined, null, false, 0 and the empty
    string. *)
Definition truthy (v : value) : bool :=
  match v with
  | VUndefined | VNull => false
  | VBool b => b
  | VNum n => negb (Z.eqb n 0)
  | VStr s => negb (String.eqb s "")
  | VArr _ | VObj _ => true
  end.

(** Own property lookup in a property list. *)
Fixpoint assoc (k : string) (props : list (string * value)) : option value :=
  match props with
  | [] => None
  | (k', v) :: rest => if String.eqb k k' then Some v else assoc k rest
  end.

(** Removal of every binding of a key. *)
Fixpoint del (k : string) (props : list (string * value))
  : list (string * value) :=
  match props with
  | [] => []
  | (k', v) :: rest =>
      if String.eqb k k' then del k rest else (k', v) :: del k rest
  end.

(** [o[k] = v] on a property list: overwrite in place, or append. *)
Fixpoint put (k : string) (v : value) (props : list (string * value))
  : list (string * value) :=
  match props with
  | [] => [(k, v)]
  | (k', v') :: rest =>
      if String.eqb k k' then (k, v) :: rest else (k', v') :: put k v rest
  end.

(** A synchronous computation either returns or throws. *)
Inductive completion (A : Type) : Type :=
| Return (a : A)
| Throw (err : value).
Arguments Return {A} a.
Arguments Throw {A} err.

Definition TypeError (msg : string) : value :=
  VObj [("name", VStr "TypeError"); ("message", VStr msg)].

Definition SyntaxError (msg : string) : value :=
  VObj [("name", VStr "SyntaxError"); ("message", VStr msg)].

(** [o._id]. Reading a property of undefined or null throws; an array has
    only its indices and [length]; a primitive has no [_id]. *)
Definition get_id (o : value) : completion value :=
  match o with
  | VUndefined | VNull =>
      Throw (TypeError "Cannot read property '_id' of undefined or null")
  | VObj props => Return (default VUndefined (assoc "_id" props))
  | VBool _ | VNum _ | VStr _ | VArr _ => Return VUndefined
  end.

(** [Reflect.deleteProperty(o, '_id')]: mutates [o], here returns it. *)
Definition deleteProperty_id (o : value) : value :=
  match o with
  | VObj props => VObj (del "_id" props)
  | _ => o
  end.

(** [o[k]] for a document, [None] when [o] is not an object or has no such
    property. *)
Definition field (k : string) (o : value) : option value :=
  match o with
  | VObj props => assoc k props
  | _ => None
  end.

(** The identifier a document carries. *)
Definition doc_id (d : value) : option string :=
  match field "_id" d with
  | Some (VStr s) => Some s
  | _ => None
  end.

(** ** Requests and responses *)

Record params : Type := mkParams {
  param_id : string;
  param_text : string;
  param_host : string;
  param_participant : string;
  param_user : string
}.

Record request : Type := mkRequest {
  req_params : params;
  req_body : value
}.

(** The response object is observed through the methods called on it. *)
Inductive res_call : Type :=
| Status (code : Z)
| Json (body : value)
| Send (body : value)
| End.

(** ** The Event collection and the collaborators *)

(** A stored document is an object; the collection keeps its documents in
    insertion order. *)
Definition document : Type := list (string * value).

Definition has_id (id : string) (d : document) : bool :=
  match assoc "_id" d with
  | Some (VStr s) => String.eqb s id
  | _ => false
  end.

(** A regular expression object: its source text and its flags. *)
Record regexp : Type := mkRegExp {
  source : string;
  flags : string
}.

(** The conditions the handlers hand to [Event.find]. *)
Inductive query : Type :=
| QAll
| QNameRegex (r : regexp)
| QHost (host : string)
| QParticipantsUser (participant : string)
| QFavoritesBy (user : string).

(** Every call the controller makes on a collaborator, with its arguments. *)
Inductive call : Type :=
| Find (q : query) (paths : list string)
| FindById (id : string) (paths : list string)
| Create (body : value)
| FindOneAndUpdate (id : string) (update : value)
| Remove (entity : value)
| Save (entity : value)
| JsonpatchApply (entity patches : value).

(** What the controller acts on: the collection, the response object and
    the record of collaborator calls. *)
Record world : Type := mkWorld {
  db : list document;
  res : list res_call;
  calls : list call
}.

Definition respond (cs : list res_call) (w : world) : world :=
  mkWorld (db w) (res w ++ cs)%list (calls w).

Definition log (c : call) (w : world) : world :=
  mkWorld (db w) (res w) (calls w ++ [c])%list.

Definition set_db (d : list document) (w : world) : world :=
  mkWorld d (res w) (calls w).

(** The outcome of [jsonpatch.apply(entity, patches, true)]: the entity as
    mutated in place, or the error thrown. *)
Inductive patched : Type :=
| Patched (entity : value)
| PatchError (err : value).

(** The parts of the system the controller calls but does not define.
    - [jsonpatch_apply]: fast-json-patch's [apply] with validation on;
    - [regexp_syntax]: whether [new RegExp(pattern, flags)] accepts the
      pattern (it throws a SyntaxError otherwise);
    - [regexp_test]: whether the expression matches somewhere in a string;
    - [populate]: expansion of one reference path of a document;
    - [fault]: the failure, if any, of a store call in a given collection
      state (connection errors, cast errors, schema validation errors);
    - [new_id]: the identifier the store assigns to a new document. *)
Class Collaborators : Type := {
  jsonpatch_apply : value -> value -> patched;
  regexp_syntax : string -> string -> bool;
  regexp_test : regexp -> string -> bool;
  populate : string -> document -> document;
  fault : list document -> call -> option value;
  new_id : list document -> string
}.

(** ** Promises *)

Inductive settled (A : Type) : Type :=
| Fulfilled (a : A)
| Rejected (err : value).
Arguments Fulfilled {A} a.
Arguments Rejected {A} err.

(** A promise runs against the world and settles. *)
Definition promise (A : Type) : Type := world -> settled A * world.

Definition resolve {A : Type} (a : A) : promise A :=
  fun w => (Fulfilled a, w).

Definition reject {A : Type} (err : value) : promise A :=
  fun w => (Rejected err, w).

(** [p.then(f)]: [f] runs on fulfilment only; a rejection passes through. *)
Definition then_ {A B : Type} (p : promise A) (f : A -> promise B)
  : promise B :=
  fun w =>
    match p w with
    | (Fulfilled a, w1) => f a w1
    | (Rejected err, w1) => (Rejected err, w1)
    end.

(** [p.catch(h)]: [h] runs on rejection only. *)
Definition catch {A : Type} (p : promise A) (h : value -> promise A)
  : promise A :=
  fun w =>
    match p w with
    | (Fulfilled a, w1) => (Fulfilled a, w1)
    | (Rejected err, w1) => h err w1
    end.

Notation "p '>>then' f" := (then_ p f) (at level 50, left associativity).
Notation "p '>>catch' h" := (catch p h) (at level 50, left associativity).

(** What travels down a chain: a value, or the response object itself
    (which [res.status(..).json(..)] returns). *)
Inductive chain_value : Type :=
| Val (v : value)
| ResObject.

(** [statusCode || d]: an omitted or zero status code falls back to [d]. *)
Definition or_default (statusCode : option Z) (d : Z) : Z :=
  match statusCode with
  | Some c => if Z.eqb c 0 then d else c
  | None => d
  end.

Section Controller.

Context `{Collaborators}.

(** ** The Event model *)

(** Modelled from the spec: the Event model ([./event.model], a schema over
    the object-document mapper) is not among the sources. Section 3 and
    the table of section 4.1 give what its operations do: documents are
    found by identifier or by field predicates, [create] inserts a new
    document with an assigned identifier, [findOneAndUpdate] with [upsert]
    replaces-or-inserts the document matching the identifier, [save]
    persists an entity, [remove] deletes it, and an identifier is immutable
    once assigned. Any call may fail as [fault] says, leaving the collection
    as it was. *)
Definition store_op (c : call)
  (run : list document -> settled value * list document) : promise value :=
  fun w =>
    let w1 := log c w in
    match fault (db w) c with
    | Some err => (Rejected err, w1)
    | None => let '(r, db') := run (db w) in (r, set_db db' w1)
    end.

Definition populate_all (paths : list string) (d : document) : document :=
  fold_left (fun d p => populate p d) paths d.

Definition str_is (s : string) (v : option value) : bool :=
  match v with
  | Some (VStr s') => String.eqb s' s
  | _ => false
  end.

(** Modelled from the spec: which documents a query selects. *)
Definition matches (q : query) (d : document) : bool :=
  match q with
  | QAll => true
  | QNameRegex r =>
      match assoc "name" d with
      | Some (VStr name) => regexp_test r name
      | _ => false
      end
  | QHost host => str_is host (assoc "host" d)
  | QParticipantsUser participant =>
      match assoc "participants" d with
      | Some (VArr ps) => existsb (fun p => str_is participant (field "user" p)) ps
      | _ => false
      end
  | QFavoritesBy user =>
      match assoc "favoritesBy" d with
      | Some (VArr us) => existsb (fun u => str_is user (Some u)) us
      | _ => false
      end
  end.

(** Modelled from the spec: [Event.find(q).populate(..).exec()]. *)
Definition Event_find (q : query) (paths : list string) : promise value :=
  store_op (Find q paths) (fun db =>
    (Fulfilled (VArr (map (fun d => VObj (populate_all paths d))
                          (List.filter (matches q) db))), db)).

Definition lookup_id (id : string) (db : list document) : option document :=
  find (has_id id) db.

(** Modelled from the spec: [Event.findById(id).populate(..).exec()], which
    resolves to null when no document has the identifier. *)
Definition Event_findById (id : string) (paths : list string)
  : promise value :=
  store_op (FindById id paths) (fun db =>
    (Fulfilled match lookup_id id db with
               | Some d => VObj (populate_all paths d)
               | None => VNull
               end, db)).

Definition store_error (msg : string) : value :=
  VObj [("name", VStr "MongoError"); ("message", VStr msg)].

(** Modelled from the spec: [Event.create(body)]. A body without an
    identifier gets a new one; a body with its own identifier keeps it when
    it is a string no stored document has. *)
Definition Event_create (body : value) : promise value :=
  store_op (Create body) (fun db =>
    match body with
    | VObj props =>
        match assoc "_id" props with
        | None =>
            let d := ("_id", VStr (new_id db)) :: props in
            (Fulfilled (VObj d), (db ++ [d])%list)
        | Some (VStr k) =>
            match lookup_id k db with
            | None => (Fulfilled (VObj props), (db ++ [props])%list)
            | Some _ => (Rejected (store_error "duplicate key"), db)
            end
        | Some _ => (Rejected (store_error "invalid _id"), db)
        end
    | _ => (Rejected (store_error "document must be an object"), db)
    end).

(** Modelled from the spec: the update sets each property of [update] on
    the document. *)
Definition set_fields (update d : document) : document :=
  fold_left (fun d kv => put (fst kv) (snd kv) d) update d.

Definition replace_id (id : string) (d' : document) (db : list document)
  : list document :=
  map (fun d => if has_id id d then d' else d) db.

(** Modelled from the spec: the identifier is immutable once assigned, so
    an update may name it only to leave it as it is. *)
Definition keeps_id (id : string) (update : document) : bool :=
  forallb (fun kv => negb (String.eqb (fst kv) "_id")
                     || str_is id (Some (snd kv)))%bool update.

(** Modelled from the spec: [Event.findOneAndUpdate({_id: id}, update,
    {new: true, upsert: true, setDefaultsOnInsert: true, runValidators:
    true}).exec()]: the updated document, inserted when none matched. *)
Definition Event_findOneAndUpdate (id : string) (update : value)
  : promise value :=
  store_op (FindOneAndUpdate id update) (fun db =>
    match update with
    | VObj props =>
        if keeps_id id props then
          match lookup_id id db with
          | Some d =>
              let d' := set_fields props d in
              (Fulfilled (VObj d'), replace_id id d' db)
          | None =>
              let d' := set_fields props [("_id", VStr id)] in
              (Fulfilled (VObj d'), (db ++ [d'])%list)
          end
        else (Rejected (store_error "_id is immutable"), db)
    | _ => (Rejected (store_error "update must be an object"), db)
    end).

(** Modelled from the spec: [entity.save()] persists the entity over the
    stored document that has its identifier. Calling it on null or
    undefined is a TypeError, raised inside the promise callback. *)
Definition entity_save (entity : value) : promise value :=
  match entity with
  | VObj props =>
      store_op (Save entity) (fun db =>
        match doc_id entity with
        | Some k =>
            match lookup_id k db with
            | Some _ => (Fulfilled entity, replace_id k props db)
            | None => (Rejected (store_error "No document found"), db)
            end
        | None => (Rejected (store_error "No _id found on document!"), db)
        end)
  | _ => reject (TypeError "Cannot read property 'save'")
  end.

(** Modelled from the spec: [entity.remove()] deletes the stored document
    that has the entity's identifier. *)
Definition entity_remove (entity : value) : promise value :=
  match entity with
  | VObj props =>
      store_op (Remove entity) (fun db =>
        match doc_id entity with
        | Some k =>
            (Fulfilled entity,
             List.filter (fun d => negb (has_id k d)) db)
        | None => (Rejected (store_error "No _id found on document!"), db)
        end)
  | _ => reject (TypeError "entity.remove is not a function")
  end.

(** ** The helpers of the controller *)

(** [respondWithResult(res, statusCode)]: a truthy entity is written as
    JSON under the status code; otherwise nothing is written. *)
Definition respondWithResult (statusCode : option Z) (entity : value)
  : promise chain_value :=
  let statusCode := or_default statusCode 200 in
  if truthy entity then
    fun w => (Fulfilled ResObject, respond [Status statusCode; Json entity] w)
  else resolve (Val VNull).

(** [jsonpatch.apply] works on the object [entity] refers to: when it
    returns, an object or array has become the patched one, while null,
    undefined or a primitive is what it was. *)
Definition in_place (entity entity' : value) : value :=
  match entity with
  | VObj _ | VArr _ => entity'
  | _ => entity
  end.

(** [patchUpdates(patches)]: apply the patches with validation, reject
    with what the applier throws, else save the entity. *)
Definition patchUpdates (patches : value) (entity : value)
  : promise value :=
  fun w =>
    let w1 := log (JsonpatchApply entity patches) w in
    match jsonpatch_apply entity patches with
    | PatchError err => (Rejected err, w1)
    | Patched entity' => entity_save (in_place entity entity') w1
    end.

(** [removeEntity(res)]: remove a truthy entity, then answer 204. *)
Definition removeEntity (entity : value) : promise chain_value :=
  if truthy entity then
    entity_remove entity >>then (fun _ w =>
      (Fulfilled (Val VUndefined), respond [Status 204; End] w))
  else resolve (Val VUndefined).

(** [handleEntityNotFound(res)]: a falsy entity is answered with 404 and
    replaced by null; a truthy one passes through. *)
Definition handleEntityNotFound (entity : value) : promise value :=
  if negb (truthy entity) then
    fun w => (Fulfilled VNull, respond [Status 404; End] w)
  else resolve entity.

(** [handleError(res, statusCode)]: the error is sent under the status
    code, 500 by default. *)
Definition handleError (statusCode : option Z) (err : value)
  : promise chain_value :=
  let statusCode := or_default statusCode 500 in
  fun w => (Fulfilled (Val VUndefined), respond [Status statusCode; Send err] w).

(** ** The handlers *)

(** A handler either throws before it has a promise to return, or returns
    its promise, which then settles. *)
Definition handler : Type :=
  request -> world -> completion (settled chain_value) * world.

Definition returns (p : promise chain_value)
  : world -> completion (settled chain_value) * world :=
  fun w => let '(s, w') := p w in (Return s, w').

Definition throws (err : value)
  : world -> completion (settled chain_value) * world :=
  fun w => (Throw err, w).

Definition host_path : list string := ["host"].
Definition show_paths : list string := ["host"; "participants.user"].

(** The chain of each handler up to its final [.catch(handleError(res))]. *)
Definition index_chain : promise chain_value :=
  Event_find QAll host_path >>then respondWithResult None.

Definition show_chain (id : string) : promise chain_value :=
  Event_findById id show_paths
    >>then handleEntityNotFound
    >>then respondWithResult None.

Definition create_chain (body : value) : promise chain_value :=
  Event_create body >>then respondWithResult (Some 201).

Definition upsert_chain (id : string) (body : value) : promise chain_value :=
  Event_findOneAndUpdate id body >>then respondWithResult None.

Definition patch_chain (id : string) (body : value) : promise chain_value :=
  Event_findById id []
    >>then handleEntityNotFound
    >>then patchUpdates body
    >>then respondWithResult None.

Definition destroy_chain (id : string) : promise chain_value :=
  Event_findById id []
    >>then handleEntityNotFound
    >>then removeEntity.

Definition find_chain (q : query) : promise chain_value :=
  Event_find q host_path >>then respondWithResult None.

(** [if(req.body._id) { Reflect.deleteProperty(req.body, '_id'); }] *)
Definition strip_id (body : value) : completion value :=
  match get_id body with
  | Throw err => Throw err
  | Return v => Return (if truthy v then deleteProperty_id body else body)
  end.

(** [new RegExp(pattern, flags)] *)
Definition new_RegExp (pattern fl : string) : completion regexp :=
  if regexp_syntax pattern fl then Return (mkRegExp pattern fl)
  else Throw (SyntaxError "Invalid regular expression").

Definition index : handler := fun req =>
  returns (index_chain >>catch handleError None).

Definition show : handler := fun req =>
  returns (show_chain (param_id (req_params req)) >>catch handleError None).

Definition create : handler := fun req =>
  returns (create_chain (req_body req) >>catch handleError None).

Definition upsert : handler := fun req =>
  match strip_id (req_body req) with
  | Throw err => throws err
  | Return body =>
      returns (upsert_chain (param_id (req_params req)) body
                 >>catch handleError None)
  end.

Definition patch : handler := fun req =>
  match strip_id (req_body req) with
  | Throw err => throws err
  | Return body =>
      returns (patch_chain (param_id (req_params req)) body
                 >>catch handleError None)
  end.

Definition destroy : handler := fun req =>
  returns (destroy_chain (param_id (req_params req)) >>catch handleError None).

Definition search : handler := fun req =>
  match new_RegExp (param_text (req_params req)) "i" with
  | Throw err => throws err
  | Return r => returns (find_chain (QNameRegex r) >>catch handleError None)
  end.

Definition hosting : handler := fun req =>
  returns (find_chain (QHost (param_host (req_params req)))
             >>catch handleError None).

Definition going : handler := fun req =>
  returns (find_chain (QParticipantsUser (param_participant (req_params req)))
             >>catch handleError None).

Definition favorite : handler := fun req =>
  returns (find_chain (QFavoritesBy (param_user (req_params req)))
             >>catch handleError None).

(** The error patch ends with when the entity is null: what the applier
    throws on null, or else the TypeError of calling [save] on null. *)
Definition patch_null_error (patches : value) : value :=
  match jsonpatch_apply VNull patches with
  | PatchError err => err
  | Patched _ => TypeError "Cannot read property 'save'"
  end.

(** The ten operations of the controller. *)
Inductive operation : Type :=
| Index | Show | Create_ | Upsert | Patch | Destroy
| Search | Hosting | Going | Favorite.

Definition run (o : operation) : handler :=
  match o with
  | Index => index
  | Show => show
  | Create_ => create
  | Upsert => upsert
  | Patch => patch
  | Destroy => destroy
  | Search => search
  | Hosting => hosting
  | Going => going
  | Favorite => favorite
  end.

(** The chain an operation builds before its [.catch(handleError(res))],
    unless it throws first. *)
Definition chain_of (o : operation) (req : request)
  : completion (promise chain_value) :=
  let p := req_params req in
  match o with
  | Index => Return index_chain
  | Show => Return (show_chain (param_id p))
  | Create_ => Return (create_chain (req_body req))
  | Upsert =>
      match strip_id (req_body req) with
      | Throw err => Throw err
      | Return body => Return (upsert_chain (param_id p) body)
      end
  | Patch =>
      match strip_id (req_body req) with
      | Throw err => Throw err
      | Return body => Return (patch_chain (param_id p) body)
      end
  | Destroy => Return (destroy_chain (param_id p))
  | Search =>
      match new_RegExp (param_text p) "i" with
      | Throw err => Throw err
      | Return r => Return (find_chain (QNameRegex r))
      end
  | Hosting => Return (find_chain (QHost (param_host p)))
  | Going => Return (find_chain (QParticipantsUser (param_participant p)))
  | Favorite => Return (find_chain (QFavoritesBy (param_user p)))
  end.

(** The status codes the specification lists. *)
Definition status_codes : list Z := [200; 201; 204; 404; 500].

Definition listed (c : res_call) : Prop :=
  match c with
  | Status code => In code status_codes
  | _ => True
  end.

(** A world reached by writing only listed status codes, and a promise
    that only ever does so. *)
Definition writes_listed (w w' : world) : Prop :=
  exists written,
    res w' = (res w ++ written)%list /\ Forall listed written.

Definition well_behaved {A : Type} (p : promise A) : Prop :=
  forall w, writes_listed w (snd (p w)).

End Controller.

(** ** A reference regular-expression engine

    The engine behind [new RegExp(text, 'i')] and the store's [$regex]
    search is not part of the controller. This one reads literal
    characters, [.], [^] and [$], escapes, character classes, groups, [|]
    and the quantifiers [*], [+], [?], on texts taken character by
    character as single bytes; it is used to run the handlers on concrete
    requests. Braced quantifiers, look-around, back-references and word
    boundaries are outside it. *)
Module Regex.

Inductive re : Type :=
| RNone
| REps
| RSet (p : ascii -> bool)
| RBegin
| REnd
| RSeq (r1 r2 : re)
| RAlt (r1 r2 : re)
| RStar (r : re).

(** Whether the expression matches the empty string, at the start of the
    input or not, at its end or not. *)
Fixpoint nullable (st en : bool) (r : re) : bool :=
  match r with
  | RNone => false
  | REps => true
  | RSet _ => false
  | RBegin => st
  | REnd => en
  | RSeq r1 r2 => nullable st en r1 && nullable st en r2
  | RAlt r1 r2 => nullable st en r1 || nullable st en r2
  | RStar _ => true
  end.

(** The expression for what may follow a first character [c]. *)
Fixpoint deriv (st : bool) (c : ascii) (r : re) : re :=
  match r with
  | RNone | REps | RBegin | REnd => RNone
  | RSet p => if p c then REps else RNone
  | RSeq r1 r2 =>
      if nullable st false r1
      then RAlt (RSeq (deriv st c r1) r2) (deriv st c r2)
      else RSeq (deriv st c r1) r2
  | RAlt r1 r2 => RAlt (deriv st c r1) (deriv st c r2)
  | RStar r1 => RSeq (deriv st c r1) (RStar r1)
  end.

(** Whether the expression matches a prefix of [s]. *)
Fixpoint matches_prefix (r : re) (st : bool) (s : list ascii) : bool :=
  match s with
  | [] => nullable st true r
  | c :: rest =>
      nullable st false r || matches_prefix (deriv st c r) false rest
  end.

Fixpoint contains_from (r : re) (st : bool) (s : list ascii) : bool :=
  matches_prefix r st s ||
  match s with
  | [] => false
  | _ :: rest => contains_from r false rest
  end.

(** Containment: the expression matches some substring. *)
Definition contains (r : re) (s : list ascii) : bool :=
  contains_from r true s.

Definition between (lo hi : nat) (c : ascii) : bool :=
  (Nat.leb lo (nat_of_ascii c) && Nat.leb (nat_of_ascii c) hi)%bool.

Definition lower (c : ascii) : ascii :=
  if between 65 90 c then ascii_of_nat (nat_of_ascii c + 32) else c.

Definition upper (c : ascii) : ascii :=
  if between 97 122 c then ascii_of_nat (nat_of_ascii c - 32) else c.

(** A set of characters, taken exactly or up to case, and inverted or
    not. *)
Definition set (ci inverted : bool) (p : ascii -> bool) : re :=
  RSet (fun x =>
          xorb inverted
               (if ci then (p x || p (lower x) || p (upper x))%bool
                else p x)).

Definition literal (ci : bool) (c : ascii) : re :=
  set ci false (Ascii.eqb c).

Definition line_terminator (c : ascii) : bool :=
  (Ascii.eqb c "010" || Ascii.eqb c "013")%bool.

(** [.] matches any character but a line terminator. *)
Definition dot : re := RSet (fun x => negb (line_terminator x)).

Definition digit_char (c : ascii) : bool := between 48 57 c.

Definition word_char (c : ascii) : bool :=
  (between 97 122 c || between 65 90 c || between 48 57 c
   || Ascii.eqb c "_")%bool.

Definition space_char (c : ascii) : bool :=
  (between 9 13 c || Ascii.eqb c " ")%bool.

(** What an escape stands for: a set of characters ([\d], [\W], ..), one
    character ([\n], [\.], ..), or something outside the fragment. *)
Inductive escape : Type :=
| EscSet (p : ascii -> bool)
| EscChar (c : ascii)
| EscOther.

Definition escaped (c : ascii) : escape :=
  if Ascii.eqb c "d" then EscSet digit_char
  else if Ascii.eqb c "D" then EscSet (fun x => negb (digit_char x))
  else if Ascii.eqb c "w" then EscSet word_char
  else if Ascii.eqb c "W" then EscSet (fun x => negb (word_char x))
  else if Ascii.eqb c "s" then EscSet space_char
  else if Ascii.eqb c "S" then EscSet (fun x => negb (space_char x))
  else if Ascii.eqb c "n" then EscChar "010"
  else if Ascii.eqb c "r" then EscChar "013"
  else if Ascii.eqb c "t" then EscChar "009"
  else if Ascii.eqb c "v" then EscChar "011"
  else if Ascii.eqb c "f" then EscChar "012"
  else if (word_char c || Nat.leb 128 (nat_of_ascii c))%bool then EscOther
  else EscChar c.

(** The term a quantifier may apply to. *)
Inductive term : Type :=
| NoTerm
| Atom (r : re)
| Quantified (r : re)
| Lazy (r : re).

(** An alternation being read: the alternatives closed so far, the sequence
    of the current alternative, and its last term. *)
Record frame : Type := mkFrame {
  alts : option re;
  sequence : re;
  last : term
}.

Definition flush (f : frame) : re :=
  match last f with
  | NoTerm => sequence f
  | Atom r | Quantified r | Lazy r => RSeq (sequence f) r
  end.

Definition close (f : frame) : re :=
  match alts f with
  | None => flush f
  | Some a => RAlt a (flush f)
  end.

Definition push_atom (r : re) (f : frame) : frame :=
  mkFrame (alts f) (flush f) (Atom r).

(** An assertion joins the sequence and takes no quantifier. *)
Definition push_assertion (r : re) (f : frame) : frame :=
  mkFrame (alts f) (RSeq (flush f) r) NoTerm.

(** A character class being read: whether it is inverted, its members so
    far, the last single character, and whether a [-] followed it. *)
Record class : Type := mkClass {
  inverted : bool;
  members : ascii -> bool;
  pending : option ascii;
  dash : bool
}.

Definition member (cl : class) (c : ascii) : ascii -> bool :=
  fun x => (members cl x || Ascii.eqb c x)%bool.

(** The members once the class is closed: a pending character, and a
    trailing [-], stand for themselves. *)
Definition closed_members (cl : class) : ascii -> bool :=
  match pending cl with
  | None => members cl
  | Some p =>
      if dash cl then fun x => (member cl p x || Ascii.eqb x "-")%bool
      else member cl p
  end.

Inductive parsed : Type :=
| Parsed (r : re)
| Invalid
| Unsupported.

(** A character read inside a class: the end of a range, or a new pending
    character. [None] when the range is out of order. *)
Definition class_char (c : ascii) (cl : class) : option class :=
  match pending cl with
  | Some p =>
      if dash cl then
        if Nat.leb (nat_of_ascii p) (nat_of_ascii c)
        then Some (mkClass (inverted cl)
                     (fun x => (members cl x
                                || between (nat_of_ascii p) (nat_of_ascii c) x)%bool)
                     None false)
        else None
      else Some (mkClass (inverted cl) (member cl p) (Some c) false)
  | None => Some (mkClass (inverted cl) (members cl) (Some c) false)
  end.

Definition fresh : frame := mkFrame None REps NoTerm.

Definition empty_class (inv : bool) : class :=
  mkClass inv (fun _ => false) None false.

(** One pass over the pattern, with the enclosing groups on a stack and
    the class being read, if any. *)
Fixpoint parse (ci : bool) (stack : list frame) (f : frame)
  (cls : option class) (s : list ascii) : parsed :=
  match s with
  | [] =>
      match cls, stack with
      | None, [] => Parsed (close f)
      | _, _ => Invalid
      end
  | c :: rest =>
      match cls with
      | Some cl =>
          if Ascii.eqb c "]" then
            parse ci stack
              (push_atom (set ci (inverted cl) (closed_members cl)) f)
              None rest
          else if Ascii.eqb c "\" then
            match rest with
            | [] => Invalid
            | e :: rest' =>
                if Ascii.eqb e "b" then
                  match class_char "008" cl with
                  | Some cl' => parse ci stack f (Some cl') rest'
                  | None => Invalid
                  end
                else if Ascii.eqb e "-" then
                  match class_char "-" cl with
                  | Some cl' => parse ci stack f (Some cl') rest'
                  | None => Invalid
                  end
                else
                  match escaped e with
                  | EscChar x =>
                      match class_char x cl with
                      | Some cl' => parse ci stack f (Some cl') rest'
                      | None => Invalid
                      end
                  | EscSet p =>
                      if dash cl then Unsupported
                      else
                        parse ci stack f
                          (Some (mkClass (inverted cl)
                                   (fun x => (closed_members cl x || p x)%bool)
                                   None false))
                          rest'
                  | EscOther => Unsupported
                  end
            end
          else if (Ascii.eqb c "-"
                   && match pending cl with
                      | Some _ => negb (dash cl)
                      | None => false
                      end)%bool then
            parse ci stack f
              (Some (mkClass (inverted cl) (members cl) (pending cl) true))
              rest
          else
            match class_char c cl with
            | Some cl' => parse ci stack f (Some cl') rest
            | None => Invalid
            end
      | None =>
          if Ascii.eqb c "(" then
            match rest with
            | "?"%char :: ":"%char :: rest' =>
                parse ci (f :: stack) fresh None rest'
            | "?"%char :: _ => Unsupported
            | _ => parse ci (f :: stack) fresh None rest
            end
          else if Ascii.eqb c ")" then
            match stack with
            | [] => Invalid
            | outer :: stack' =>
                parse ci stack' (push_atom (close f) outer) None rest
            end
          else if Ascii.eqb c "|" then
            parse ci stack (mkFrame (Some (close f)) REps NoTerm) None rest
          else if (Ascii.eqb c "*" || Ascii.eqb c "+")%bool then
            match last f with
            | Atom r =>
                let q :=
                  if Ascii.eqb c "*" then RStar r else RSeq r (RStar r) in
                parse ci stack
                  (mkFrame (alts f) (sequence f) (Quantified q)) None rest
            | _ => Invalid
            end
          else if Ascii.eqb c "?" then
            match last f with
            | Atom r =>
                parse ci stack
                  (mkFrame (alts f) (sequence f) (Quantified (RAlt r REps)))
                  None rest
            | Quantified q =>
                parse ci stack (mkFrame (alts f) (sequence f) (Lazy q))
                  None rest
            | _ => Invalid
            end
          else if Ascii.eqb c "." then
            parse ci stack (push_atom dot f) None rest
          else if Ascii.eqb c "^" then
            parse ci stack (push_assertion RBegin f) None rest
          else if Ascii.eqb c "$" then
            parse ci stack (push_assertion REnd f) None rest
          else if Ascii.eqb c "[" then
            match rest with
            | "^"%char :: rest' =>
                parse ci stack f (Some (empty_class true)) rest'
            | _ => parse ci stack f (Some (empty_class false)) rest
            end
          else if Ascii.eqb c "\" then
            match rest with
            | [] => Invalid
            | e :: rest' =>
                match escaped e with
                | EscSet p =>
                    parse ci stack (push_atom (RSet p) f) None rest'
                | EscChar x =>
                    parse ci stack (push_atom (literal ci x) f) None rest'
                | EscOther => Unsupported
                end
            end
          else if Ascii.eqb c "{" then Unsupported
          else parse ci stack (push_atom (literal ci c) f) None rest
      end
  end.

Definition supported_flags (fl : string) : option bool :=
  if String.eqb fl "" then Some false
  else if String.eqb fl "i" then Some true
  else None.

Definition compile (pattern fl : string) : parsed :=
  match supported_flags fl with
  | Some ci => parse ci [] fresh None (list_ascii_of_string pattern)
  | None => Unsupported
  end.

(** Whether the constructor accepts the pattern; what lies outside the
    fragment is turned down. *)
Definition syntax (pattern fl : string) : bool :=
  match compile pattern fl with
  | Parsed _ => true
  | Invalid | Unsupported => false
  end.

Definition test (r : regexp) (s : string) : bool :=
  match compile (source r) (flags r) with
  | Parsed e => contains e (list_ascii_of_string s)
  | Invalid | Unsupported => false
  end.

End Regex.

(** ** Reference collaborators

    One implementation of the interface, small enough to run: a JSON-Patch
    applier (add, remove, replace, move, copy and test, on pointers into
    objects and arrays), the engine above, a user table to populate from,
    and a store that fails on chosen calls. *)
Module Reference.

Definition patch_error (name : string) : value :=
  VObj [("name", VStr name)].

(** The reference tokens of a JSON pointer: [/a/b] names [a] then [b];
    [~1] and [~0] stand for [/] and [~]. *)
Fixpoint split_tokens (cur : list ascii) (s : list ascii)
  : list (list ascii) :=
  match s with
  | [] => [rev cur]
  | c :: rest =>
      if Ascii.eqb c "/" then rev cur :: split_tokens [] rest
      else if Ascii.eqb c "~" then
        match rest with
        | "1"%char :: rest' => split_tokens ("/"%char :: cur) rest'
        | "0"%char :: rest' => split_tokens ("~"%char :: cur) rest'
        | _ => split_tokens (c :: cur) rest
        end
      else split_tokens (c :: cur) rest
  end.

Definition pointer (path : string) : option (list string) :=
  match list_ascii_of_string path with
  | [] => Some []
  | c :: rest =>
      if Ascii.eqb c "/"
      then Some (map string_of_list_ascii (split_tokens [] rest))
      else None
  end.

Fixpoint digits (acc : nat) (s : list ascii) : option nat :=
  match s with
  | [] => Some acc
  | c :: rest =>
      let n := nat_of_ascii c in
      if (Nat.leb 48 n && Nat.leb n 57)%bool
      then digits (10 * acc + (n - 48))%nat rest
      else None
  end.

(** An array index: an unsigned base-10 integer. *)
Definition array_index (k : string) : option nat :=
  match list_ascii_of_string k with
  | [] => None
  | cs => digits 0 cs
  end.

(** Deep equality, objects compared whatever the order of their keys. *)
Fixpoint value_eqb (a b : value) : bool :=
  match a, b with
  | VUndefined, VUndefined | VNull, VNull => true
  | VBool x, VBool y => Bool.eqb x y
  | VNum x, VNum y => Z.eqb x y
  | VStr x, VStr y => String.eqb x y
  | VArr xs, VArr ys =>
      (fix all2 (xs ys : list value) : bool :=
         match xs, ys with
         | [], [] => true
         | x :: xs', y :: ys' => (value_eqb x y && all2 xs' ys')%bool
         | _, _ => false
         end) xs ys
  | VObj ps, VObj qs =>
      (Nat.eqb (length ps) (length qs) &&
       (fix all (ps : list (string * value)) : bool :=
          match ps with
          | [] => true
          | (k, x) :: ps' =>
              match assoc k qs with
              | Some y => (value_eqb x y && all ps')%bool
              | None => false
              end
          end) ps)%bool
  | _, _ => false
  end.

(** The value a pointer leads to. *)
Fixpoint get_at (tokens : list string) (v : value) : option value :=
  match tokens with
  | [] => Some v
  | k :: rest =>
      match v with
      | VObj props =>
          match assoc k props with
          | Some child => get_at rest child
          | None => None
          end
      | VArr items =>
          match array_index k with
          | Some i =>
              match nth_error items i with
              | Some child => get_at rest child
              | None => None
              end
          | None => None
          end
      | _ => None
      end
  end.

Definition set_nth (i : nat) (x : value) (items : list value) : list value :=
  (firstn i items ++ x :: skipn (S i) items)%list.

(** The change [leaf] makes to the container a pointer ends in, carried
    back up to the root. A pointer to the root itself changes nothing. *)
Fixpoint modify_at (tokens : list string) (v : value)
  (leaf : value -> string -> option value) : option value :=
  match tokens with
  | [] => None
  | [k] => leaf v k
  | k :: rest =>
      match v with
      | VObj props =>
          match assoc k props with
          | Some child =>
              match modify_at rest child leaf with
              | Some child' => Some (VObj (put k child' props))
              | None => None
              end
          | None => None
          end
      | VArr items =>
          match array_index k with
          | Some i =>
              match nth_error items i with
              | Some child =>
                  match modify_at rest child leaf with
                  | Some child' => Some (VArr (set_nth i child' items))
                  | None => None
                  end
              | None => None
              end
          | None => None
          end
      | _ => None
      end
  end.

Definition add_leaf (x : value) (container : value) (k : string)
  : option value :=
  match container with
  | VObj props => Some (VObj (put k x props))
  | VArr items =>
      if String.eqb k "-" then Some (VArr (items ++ [x])%list)
      else match array_index k with
           | Some i =>
               if Nat.leb i (length items)
               then Some (VArr (firstn i items ++ x :: skipn i items)%list)
               else None
           | None => None
           end
  | _ => None
  end.

Definition remove_leaf (container : value) (k : string) : option value :=
  match container with
  | VObj props =>
      match assoc k props with
      | Some _ => Some (VObj (del k props))
      | None => None
      end
  | VArr items =>
      match array_index k with
      | Some i =>
          if Nat.ltb i (length items)
          then Some (VArr (firstn i items ++ skipn (S i) items)%list)
          else None
      | None => None
      end
  | _ => None
  end.

Definition replace_leaf (x : value) (container : value) (k : string)
  : option value :=
  match container with
  | VObj props =>
      match assoc k props with
      | Some _ => Some (VObj (put k x props))
      | None => None
      end
  | VArr items =>
      match array_index k with
      | Some i =>
          if Nat.ltb i (length items)
          then Some (VArr (set_nth i x items))
          else None
      | None => None
      end
  | _ => None
  end.

Definition unresolvable : value + value :=
  inr (patch_error "OPERATION_PATH_UNRESOLVABLE").

Definition or_unresolvable (r : option value) : value + value :=
  match r with
  | Some v => inl v
  | None => unresolvable
  end.

(** One operation of RFC 6902 on a document, with the checks validation
    adds: a known [op], a pointer for [path] (and [from]), a [value] where
    one is needed, and a target that exists. *)
Definition apply_op (op : value) (doc : value) : value + value :=
  match field "op" op, field "path" op with
  | Some (VStr o), Some (VStr path) =>
      match pointer path with
      | None => inr (patch_error "OPERATION_PATH_INVALID")
      | Some tokens =>
          if String.eqb o "add" then
            match field "value" op with
            | Some x => or_unresolvable (modify_at tokens doc (add_leaf x))
            | None => inr (patch_error "OPERATION_VALUE_REQUIRED")
            end
          else if String.eqb o "replace" then
            match field "value" op with
            | Some x => or_unresolvable (modify_at tokens doc (replace_leaf x))
            | None => inr (patch_error "OPERATION_VALUE_REQUIRED")
            end
          else if String.eqb o "remove" then
            or_unresolvable (modify_at tokens doc remove_leaf)
          else if String.eqb o "test" then
            match field "value" op, get_at tokens doc with
            | None, _ => inr (patch_error "OPERATION_VALUE_REQUIRED")
            | Some _, None => unresolvable
            | Some x, Some y =>
                if value_eqb x y then inl doc
                else inr (patch_error "TEST_OPERATION_FAILED")
            end
          else if (String.eqb o "move" || String.eqb o "copy")%bool then
            match field "from" op with
            | Some (VStr from) =>
                match pointer from with
                | None => inr (patch_error "OPERATION_FROM_UNRESOLVABLE")
                | Some source =>
                    match get_at source doc with
                    | None => inr (patch_error "OPERATION_FROM_UNRESOLVABLE")
                    | Some x =>
                        if String.eqb o "copy" then
                          or_unresolvable (modify_at tokens doc (add_leaf x))
                        else
                          match modify_at source doc remove_leaf with
                          | Some doc' =>
                              or_unresolvable
                                (modify_at tokens doc' (add_leaf x))
                          | None =>
                              inr (patch_error "OPERATION_FROM_UNRESOLVABLE")
                          end
                    end
                end
            | _ => inr (patch_error "OPERATION_FROM_REQUIRED")
            end
          else inr (patch_error "OPERATION_OP_INVALID")
      end
  | Some (VStr _), _ => inr (patch_error "OPERATION_PATH_INVALID")
  | _, _ => inr (patch_error "OPERATION_OP_INVALID")
  end.

Fixpoint apply_ops (ops : list value) (doc : value) : value + value :=
  match ops with
  | [] => inl doc
  | op :: rest =>
      match apply_op op doc with
      | inl doc' => apply_ops rest doc'
      | inr err => inr err
      end
  end.

(** The applier. Its loop runs over [patches.length] operations, so a body
    that is not an array (it has no [length]) is applied as no operation
    at all; an operation on null or undefined fails on reading the
    target. *)
Definition apply (entity patches : value) : patched :=
  match patches with
  | VArr ops =>
      match entity, ops with
      | (VObj _ | VArr _), _ =>
          match apply_ops ops entity with
          | inl doc => Patched doc
          | inr err => PatchError err
          end
      | _, [] => Patched entity
      | _, _ :: _ => PatchError (TypeError "Cannot read property of null")
      end
  | _ => Patched entity
  end.

Definition users : list document :=
  [ [("_id", VStr "u1"); ("name", VStr "Ann"); ("imageUrl", VStr "ann.png");
     ("email", VStr "ann@example.org")];
    [("_id", VStr "u2"); ("name", VStr "Bob"); ("imageUrl", VStr "bob.png");
     ("email", VStr "bob@example.org")] ].

Definition selected (k : string) : bool :=
  (String.eqb k "_id" || String.eqb k "name" || String.eqb k "imageUrl")%bool.

(** A reference becomes the selected fields of the user, or null. *)
Definition expand (ref : value) : value :=
  match ref with
  | VStr u =>
      match find (has_id u) users with
      | Some d => VObj (List.filter (fun kv => selected (fst kv)) d)
      | None => VNull
      end
  | _ => ref
  end.

Definition expand_user (p : value) : value :=
  match p with
  | VObj props =>
      match assoc "user" props with
      | Some ref => VObj (put "user" (expand ref) props)
      | None => p
      end
  | _ => p
  end.

Definition populate_path (path : string) (d : document) : document :=
  if String.eqb path "host" then
    match assoc "host" d with
    | Some ref => put "host" (expand ref) d
    | None => d
    end
  else if String.eqb path "participants.user" then
    match assoc "participants" d with
    | Some (VArr ps) => put "participants" (VArr (map expand_user ps)) d
    | _ => d
    end
  else d.

Definition cast_error : value :=
  VObj [("name", VStr "CastError"); ("path", VStr "_id")].

Definition validation_error : value :=
  VObj [("name", VStr "ValidationError"); ("path", VStr "name")].

Definition name_ok (d : value) : bool :=
  match field "name" d with
  | Some (VStr _) | None => true
  | Some _ => false
  end.

(** Lookups of the identifier ["not-an-id"] fail to cast, and a document
    whose name is not text fails validation when written. *)
Definition failure (_ : list document) (c : call) : option value :=
  match c with
  | FindById id _ | FindOneAndUpdate id _ =>
      if String.eqb id "not-an-id" then Some cast_error else None
  | Create d | Save d | Remove d =>
      if name_ok d then None else Some validation_error
  | _ => None
  end.

Definition next_id (db : list document) : string :=
  "evt" +:+ pretty (length db).

#[export] Instance collaborators : Collaborators := {|
  jsonpatch_apply := apply;
  regexp_syntax := Regex.syntax;
  regexp_test := Regex.test;
  populate := populate_path;
  fault := failure;
  new_id := next_id
|}.

(** A collection of two events, and an untouched world around it. *)
Definition launch : document :=
  [("_id", VStr "A"); ("name", VStr "Launch Party"); ("host", VStr "u1")].

Definition picnic : document :=
  [("_id", VStr "B"); ("name", VStr "Picnic"); ("host", VStr "u2")].

Definition world0 : world := mkWorld [launch; picnic] [] [].

Definition req (id : string) (body : value) : request :=
  mkRequest (mkParams id "" "" "" "") body.

(** Bodies that carry an identifier of their own. *)
Definition body_other : value :=
  VObj [("_id", VStr "other"); ("name", VStr "x")].

Definition body_empty_id : value :=
  VObj [("_id", VStr ""); ("name", VStr "x")].

(** The patch operation [{op: replace, path: .., value: ..}]. *)
Definition replace_op (path : string) (v : value) : value :=
  VObj [("op", VStr "replace"); ("path", VStr path); ("value", v)].

Definition req_text (text : string) : request :=
  mkRequest (mkParams "" text "" "" "") VUndefined.

End Reference.

(** * Properties *)

(** ** Property lists and the collection *)

Lemma assoc_del_same (k : string) (props : list (string * value)) :
  assoc k (del k props) = None.
Proof.
  induction props as [|[k' v] rest IH]; simpl; [reflexivity|].
  destruct (String.eqb k k') eqn:E; [exact IH|].
  simpl. rewrite E. exact IH.
Qed.

Lemma assoc_del_other (k k' : string) (props : list (string * value)) :
  k <> k' -> assoc k' (del k props) = assoc k' props.
Proof.
  intros Hne. induction props as [|[k0 v] rest IH]; simpl; [reflexivity|].
  destruct (String.eqb_spec k k0) as [->|Hk].
  - destruct (String.eqb_spec k' k0) as [->|_]; [congruence|exact IH].
  - simpl. rewrite IH. reflexivity.
Qed.


Lemma assoc_put (k k' : string) (v : value) (props : list (string * value)) :
  assoc k' (put k v props) = if String.eqb k' k then Some v else assoc k' props.
Proof.
  induction props as [|[k0 v0] rest IH]; simpl.
  - destruct (String.eqb k' k); reflexivity.
  - destruct (String.eqb_spec k k0) as [->|Hk]; simpl.
    + destruct (String.eqb k' k0); reflexivity.
    + rewrite IH.
      destruct (String.eqb_spec k' k0) as [->|_]; [|reflexivity].
      destruct (String.eqb_spec k0 k) as [->|_]; [congruence|reflexivity].
Qed.

Lemma has_id_doc_id (id : string) (d : document) :
  has_id id d = true <-> doc_id (VObj d) = Some id.
Proof.
  unfold has_id, doc_id, field.
  destruct (assoc "_id" d) as [[]|]; try (split; discriminate).
  split.
  - intros E. apply String.eqb_eq in E. congruence.
  - intros E. apply String.eqb_eq. congruence.
Qed.

Lemma has_id_unique (id k : string) (d : document) :
  has_id id d = true -> k <> id -> has_id k d = false.
Proof.
  unfold has_id. destruct (assoc "_id" d) as [[]|]; try discriminate.
  intros E Hne. apply String.eqb_eq in E. subst.
  apply String.eqb_neq. congruence.
Qed.

(** An update that does not name the identifier, or names it as it is,
    leaves the identifier of the document alone. *)
Lemma set_fields_has_id (id : string) (update d : document) :
  keeps_id id update = true -> has_id id d = true ->
  has_id id (set_fields update d) = true.
Proof.
  unfold set_fields, keeps_id. revert d.
  induction update as [|[k v] rest IH]; simpl; intros d Hk Hd; [exact Hd|].
  apply andb_prop in Hk as [Hkv Hrest].
  apply IH; [exact Hrest|].
  unfold has_id in *. rewrite assoc_put.
  destruct (String.eqb_spec "_id" k) as [<-|Hne]; [|exact Hd].
  simpl in Hkv. unfold str_is in Hkv. exact Hkv.
Qed.


Lemma lookup_id_has_id (id : string) (db : list document) (d : document) :
  lookup_id id db = Some d -> has_id id d = true.
Proof. intros E. apply find_some in E. tauto. Qed.

Lemma lookup_replace_other (id k : string) (d' : document)
  (db : list document) :
  k <> id -> has_id id d' = true ->
  lookup_id k (replace_id id d' db) = lookup_id k db.
Proof.
  intros Hne Hd'. unfold lookup_id, replace_id.
  induction db as [|d rest IH]; simpl; [reflexivity|].
  destruct (has_id id d) eqn:E.
  - rewrite (has_id_unique id k d' Hd' Hne), (has_id_unique id k d E Hne).
    exact IH.
  - rewrite IH. reflexivity.
Qed.

Lemma lookup_replace_same (id : string) (d d' : document)
  (db : list document) :
  lookup_id id db = Some d -> has_id id d' = true ->
  lookup_id id (replace_id id d' db) = Some d'.
Proof.
  intros Hfind Hd'. unfold lookup_id, replace_id in *.
  induction db as [|d0 rest IH]; simpl in *; [discriminate|].
  destruct (has_id id d0) eqn:E.
  - rewrite Hd'. reflexivity.
  - rewrite E. apply IH. exact Hfind.
Qed.


Lemma lookup_snoc (k : string) (d' : document) (db : list document) :
  lookup_id k (db ++ [d']) =
  match lookup_id k db with
  | Some d => Some d
  | None => if has_id k d' then Some d' else None
  end.
Proof.
  unfold lookup_id. induction db as [|d rest IH]; simpl; [reflexivity|].
  destruct (has_id k d); [reflexivity|exact IH].
Qed.

Lemma lookup_removed (id : string) (db : list document) :
  lookup_id id (List.filter (fun d => negb (has_id id d)) db) = None.
Proof.
  unfold lookup_id. induction db as [|d rest IH]; simpl; [reflexivity|].
  destruct (has_id id d) eqn:E; simpl; [exact IH|].
  rewrite E. exact IH.
Qed.

Lemma lookup_removed_other (id k : string) (db : list document) :
  k <> id ->
  lookup_id k (List.filter (fun d => negb (has_id id d)) db) = lookup_id k db.
Proof.
  intros Hne. unfold lookup_id.
  induction db as [|d rest IH]; simpl; [reflexivity|].
  destruct (has_id id d) eqn:E; simpl.
  - rewrite (has_id_unique id k d E Hne). exact IH.
  - rewrite IH. reflexivity.
Qed.

(** Lists built by appending one call at a time, brought to one shape. *)
Ltac app_norm := repeat rewrite <- app_assoc; simpl; reflexivity.

(** Each call of a short list is [listed]. *)
Ltac listed_calls :=
  repeat apply List.Forall_cons; try apply List.Forall_nil; simpl; auto 10.

Section Properties.

Context `{Collaborators}.

(** ** Store calls *)

Lemma store_op_fault (c : call)
  (run : list document -> settled value * list document) (w : world)
  (err : value) :
  fault (db w) c = Some err -> store_op c run w = (Rejected err, log c w).
Proof. intros E. unfold store_op. rewrite E. reflexivity. Qed.

Lemma store_op_ok (c : call)
  (run : list document -> settled value * list document) (w : world) :
  fault (db w) c = None ->
  store_op c run w = (fst (run (db w)), set_db (snd (run (db w))) (log c w)).
Proof.
  intros E. unfold store_op. rewrite E. destruct (run (db w)). reflexivity.
Qed.

Lemma store_op_calls (c : call)
  (run : list document -> settled value * list document) (w : world) :
  calls (snd (store_op c run w)) = (calls w ++ [c])%list /\
  res (snd (store_op c run w)) = res w.
Proof.
  unfold store_op. destruct (fault (db w) c); [split; reflexivity|].
  destruct (run (db w)). split; reflexivity.
Qed.

(** What [Event.findById(id).populate(..).exec()] resolves to. *)
Lemma findById_paths_ok (id : string) (paths : list string) (w : world) :
  fault (db w) (FindById id paths) = None ->
  Event_findById id paths w =
  (Fulfilled match lookup_id id (db w) with
             | Some d => VObj (populate_all paths d)
             | None => VNull
             end,
   log (FindById id paths) w).
Proof.
  intros E. unfold Event_findById. rewrite store_op_ok by exact E.
  destruct w. reflexivity.
Qed.

Lemma findById_ok (id : string) (w : world) :
  fault (db w) (FindById id []) = None ->
  Event_findById id [] w =
  (Fulfilled match lookup_id id (db w) with
             | Some d => VObj d
             | None => VNull
             end,
   log (FindById id []) w).
Proof. apply findById_paths_ok. Qed.

(** ** Identifier stripping *)

Lemma strip_id_object (props : list (string * value)) :
  strip_id (VObj props) =
  Return (if truthy (default VUndefined (assoc "_id" props))
          then VObj (del "_id" props) else VObj props).
Proof. reflexivity. Qed.

Lemma strip_id_array (ops : list value) :
  strip_id (VArr ops) = Return (VArr ops).
Proof. reflexivity. Qed.

(** The falsy values a JSON body can give to [_id]. *)
Lemma falsy_values :
  Forall (fun v => truthy v = false) [VStr ""; VNum 0; VBool false; VNull].
Proof. repeat constructor. Qed.

(** ** What the patch handler hands to the applier *)

(** Past the lookup, the chain always reaches the applier: with the
    document found, or with null. *)
Lemma patch_chain_calls (id : string) (patches : value) (w : world) :
  let w' := snd ((patch_chain id patches >>catch handleError None) w) in
  match fault (db w) (FindById id []) with
  | Some _ => calls w' = (calls w ++ [FindById id []])%list
  | None =>
      exists rest,
        calls w' =
        (calls w ++ FindById id []
           :: JsonpatchApply match lookup_id id (db w) with
                             | Some d => VObj d
                             | None => VNull
                             end patches
           :: rest)%list
  end.
Proof.
  cbv zeta. unfold patch_chain, catch, then_.
  destruct (fault (db w) (FindById id [])) as [err|] eqn:E.
  - unfold Event_findById. rewrite (store_op_fault _ _ _ err) by exact E.
    reflexivity.
  - rewrite findById_ok by exact E.
    destruct (lookup_id id (db w)) as [d|]; simpl; unfold patchUpdates.
    + destruct (jsonpatch_apply (VObj d) patches) as [e|err]; simpl.
      * destruct e as [| |b|n|s|items|props]; simpl;
          try (exists []; app_norm).
        unfold store_op; simpl.
        exists [Save (VObj props)].
        destruct (fault (db w) (Save (VObj props))); simpl; [app_norm|].
        destruct (doc_id (VObj props)) as [k|];
          [destruct (lookup_id k (db w))|]; simpl; app_norm.
      * exists []. app_norm.
    + destruct (jsonpatch_apply VNull patches); simpl; exists []; app_norm.
Qed.

(** ** Responders leave the store and the call record alone *)

Lemma respondWithResult_frame (statusCode : option Z) (entity : value)
  (w : world) :
  db (snd (respondWithResult statusCode entity w)) = db w /\
  calls (snd (respondWithResult statusCode entity w)) = calls w.
Proof.
  unfold respondWithResult. destruct (truthy entity); split; reflexivity.
Qed.

Lemma handleError_frame (statusCode : option Z) (err : value) (w : world) :
  db (snd (handleError statusCode err w)) = db w /\
  calls (snd (handleError statusCode err w)) = calls w.
Proof. split; reflexivity. Qed.

(** C10: create hands the request body to the store's insert exactly as
    submitted: nothing is stripped or omitted, so a client-supplied [_id]
    (or any other field) reaches the store as it came. The one call create
    makes is [Event.create] on [req.body] itself. *)
Theorem create_passes_body_unchanged (req : request) (w : world) :
  calls (snd (create req w)) = (calls w ++ [Create (req_body req)])%list.
Proof.
  unfold create, returns, create_chain, catch, then_, Event_create.
  match goal with |- context [store_op ?c ?r w] =>
    pose proof (store_op_calls c r w) as [Hc _];
    destruct (store_op c r w) as [[a|err] w1]
  end; simpl in *.
  - destruct (respondWithResult (Some 201) a w1) as [[x|e] w2] eqn:E;
      pose proof (respondWithResult_frame (Some 201) a w1) as [_ Hr];
      rewrite E in Hr; simpl in *; congruence.
  - exact Hc.
Qed.

(** C8: in patch the stripping step only looks at a top-level [_id] of the
    body; on an array of operations it does nothing, and the array goes to
    the applier as it is, whatever its operations target (so also
    [{op: replace, path: /_id, value: ..}]). Once the lookup has answered,
    the applier is called on the fetched entity (or on null) with exactly
    the submitted operations. *)
Theorem patch_array_body_reaches_applier (ps : params) (ops : list value)
  (w : world) :
  strip_id (VArr ops) = Return (VArr ops) /\
  deleteProperty_id (VArr ops) = VArr ops /\
  let w' := snd (patch (mkRequest ps (VArr ops)) w) in
  match fault (db w) (FindById (param_id ps) []) with
  | Some _ => calls w' = (calls w ++ [FindById (param_id ps) []])%list
  | None =>
      exists rest,
        calls w' =
        (calls w ++ FindById (param_id ps) []
           :: JsonpatchApply match lookup_id (param_id ps) (db w) with
                             | Some d => VObj d
                             | None => VNull
                             end (VArr ops)
           :: rest)%list
  end.
Proof.
  split; [reflexivity|]. split; [reflexivity|].
  pose proof (patch_chain_calls (param_id ps) (VArr ops) w) as Hc.
  cbv zeta in *. unfold patch, returns. simpl.
  destruct ((patch_chain (param_id ps) (VArr ops) >>catch handleError None) w).
  exact Hc.
Qed.

(** C9: upsert and patch delete the body's [_id] only when its value is
    truthy. A body whose [_id] is falsy (the empty string, 0, false, null)
    goes on with its [_id] in place: to [findOneAndUpdate] in upsert, to the
    applier in patch. *)
Theorem falsy_body_id_is_kept (ps : params) (props : list (string * value))
  (v : value) (w : world) :
  assoc "_id" props = Some v -> truthy v = false ->
  strip_id (VObj props) = Return (VObj props) /\
  field "_id" (VObj props) = Some v /\
  calls (snd (upsert (mkRequest ps (VObj props)) w)) =
    (calls w ++ [FindOneAndUpdate (param_id ps) (VObj props)])%list /\
  match fault (db w) (FindById (param_id ps) []) with
  | Some _ => True
  | None =>
      exists rest,
        calls (snd (patch (mkRequest ps (VObj props)) w)) =
        (calls w ++ FindById (param_id ps) []
           :: JsonpatchApply match lookup_id (param_id ps) (db w) with
                             | Some d => VObj d
                             | None => VNull
                             end (VObj props)
           :: rest)%list
  end.
Proof.
  intros Hid Hfalsy.
  assert (Hstrip : strip_id (VObj props) = Return (VObj props)).
  { rewrite strip_id_object, Hid. simpl. rewrite Hfalsy. reflexivity. }
  split; [exact Hstrip|]. split; [exact Hid|]. split.
  - unfold upsert. cbn [req_body req_params]. rewrite Hstrip.
    unfold returns, upsert_chain, catch, then_, Event_findOneAndUpdate.
    match goal with |- context [store_op ?c ?r w] =>
      pose proof (store_op_calls c r w) as [Hc _];
      destruct (store_op c r w) as [[a|err] w1]
    end; simpl in *.
    + destruct (respondWithResult None a w1) as [[x|e] w2] eqn:E;
        pose proof (respondWithResult_frame None a w1) as [_ Hr];
        rewrite E in Hr; simpl in *; congruence.
    + exact Hc.
  - pose proof (patch_chain_calls (param_id ps) (VObj props) w) as Hc.
    cbv zeta in Hc. unfold patch. cbn [req_body req_params].
    rewrite Hstrip. unfold returns.
    destruct ((patch_chain (param_id ps) (VObj props)
                 >>catch handleError None) w).
    destruct (fault (db w) (FindById (param_id ps) [])); [exact I|exact Hc].
Qed.

(** ** Patch *)

(** C2: when the applier rejects the operations on the fetched entity
    (a path that does not exist, a value of the wrong type), patch answers
    500 with the error and the collection is as it was: the calls made are
    the lookup and the application, and no save follows them. *)
Theorem patch_failed_application_is_not_saved (ps : params)
  (ops : list value) (d : document) (err : value) (w : world) :
  fault (db w) (FindById (param_id ps) []) = None ->
  lookup_id (param_id ps) (db w) = Some d ->
  jsonpatch_apply (VObj d) (VArr ops) = PatchError err ->
  patch (mkRequest ps (VArr ops)) w =
  (Return (Fulfilled (Val VUndefined)),
   mkWorld (db w)
           (res w ++ [Status 500; Send err])
           (calls w ++ [FindById (param_id ps) [];
                        JsonpatchApply (VObj d) (VArr ops)])).
Proof.
  intros Hfault Hfound Happly.
  unfold patch. cbn [req_body req_params]. rewrite strip_id_array.
  unfold returns, patch_chain, catch, then_.
  rewrite findById_ok by exact Hfault. rewrite Hfound.
  unfold handleEntityNotFound, resolve. simpl.
  unfold patchUpdates. rewrite Happly. simpl.
  unfold respond, log. simpl. repeat rewrite <- app_assoc. reflexivity.
Qed.

(** ** Identifiers without a document *)

(** show on an identifier no document has: 404, an empty body, and
    nothing else. *)
Lemma show_absent_id (ps : params) (body : value) (w : world) :
  fault (db w) (FindById (param_id ps) show_paths) = None ->
  lookup_id (param_id ps) (db w) = None ->
  show (mkRequest ps body) w =
  (Return (Fulfilled (Val VNull)),
   mkWorld (db w) (res w ++ [Status 404; End])
           (calls w ++ [FindById (param_id ps) show_paths])).
Proof.
  intros Hfault Hnone.
  unfold show, returns, show_chain, catch, then_. cbn [req_body req_params].
  rewrite findById_paths_ok by exact Hfault. rewrite Hnone. reflexivity.
Qed.

(** destroy on an identifier no document has: 404, an empty body, and no
    removal. *)
Lemma destroy_absent_id (ps : params) (body : value) (w : world) :
  fault (db w) (FindById (param_id ps) []) = None ->
  lookup_id (param_id ps) (db w) = None ->
  destroy (mkRequest ps body) w =
  (Return (Fulfilled (Val VUndefined)),
   mkWorld (db w) (res w ++ [Status 404; End])
           (calls w ++ [FindById (param_id ps) []])).
Proof.
  intros Hfault Hnone.
  unfold destroy, returns, destroy_chain, catch, then_.
  cbn [req_body req_params].
  rewrite findById_ok by exact Hfault. rewrite Hnone. reflexivity.
Qed.

(** C3, on patch: for an identifier no document has, patch writes 404
    with an empty body, and then goes on: [patchUpdates] has no guard on
    the entity, so the applier is called on null, the chain rejects, and
    the error handler writes status 500 and sends the error on the
    response that was already ended. *)
Theorem patch_absent_id_goes_on_after_404 (ps : params)
  (body patches : value) (w : world) :
  strip_id body = Return patches ->
  fault (db w) (FindById (param_id ps) []) = None ->
  lookup_id (param_id ps) (db w) = None ->
  patch (mkRequest ps body) w =
  (Return (Fulfilled (Val VUndefined)),
   mkWorld (db w)
           (res w ++ [Status 404; End; Status 500;
                      Send (patch_null_error patches)])
           (calls w ++ [FindById (param_id ps) [];
                        JsonpatchApply VNull patches])).
Proof.
  intros Hstrip Hfault Hnone.
  unfold patch. cbn [req_body req_params]. rewrite Hstrip.
  unfold returns, patch_chain, catch, then_.
  rewrite findById_ok by exact Hfault. rewrite Hnone.
  unfold handleEntityNotFound. simpl.
  unfold patchUpdates, patch_null_error.
  destruct (jsonpatch_apply VNull patches) as [e|err]; simpl;
    unfold respond, log; simpl; repeat rewrite <- app_assoc; reflexivity.
Qed.

(** ** Destroy *)

(** C6: for an identifier a document has, destroy fetches the entity and
    removes it from the store; 204 with no body is written only once the
    removal has succeeded (a failed removal is answered 500 and leaves the
    collection as it was), and a show on the same identifier afterwards is
    answered 404. *)
Theorem destroy_then_show (ps : params) (body : value) (d : document)
  (w : world) :
  fault (db w) (FindById (param_id ps) []) = None ->
  lookup_id (param_id ps) (db w) = Some d ->
  let looked := [FindById (param_id ps) []; Remove (VObj d)] in
  match fault (db w) (Remove (VObj d)) with
  | None =>
      let db' :=
        List.filter (fun d => negb (has_id (param_id ps) d)) (db w) in
      destroy (mkRequest ps body) w =
      (Return (Fulfilled (Val VUndefined)),
       mkWorld db' (res w ++ [Status 204; End]) (calls w ++ looked)) /\
      forall (body' : value) (w2 : world),
        db w2 = db' ->
        fault db' (FindById (param_id ps) show_paths) = None ->
        show (mkRequest ps body') w2 =
        (Return (Fulfilled (Val VNull)),
         mkWorld db' (res w2 ++ [Status 404; End])
                 (calls w2 ++ [FindById (param_id ps) show_paths]))
  | Some err =>
      destroy (mkRequest ps body) w =
      (Return (Fulfilled (Val VUndefined)),
       mkWorld (db w) (res w ++ [Status 500; Send err]) (calls w ++ looked))
  end.
Proof.
  intros Hfault Hfound looked.
  pose proof (lookup_id_has_id _ _ _ Hfound) as Hid.
  apply has_id_doc_id in Hid.
  assert (Hrun : destroy (mkRequest ps body) w =
                 returns (removeEntity (VObj d) >>catch handleError None)
                         (log (FindById (param_id ps) []) w)).
  { unfold destroy, returns, destroy_chain, catch, then_.
    cbn [req_body req_params].
    rewrite findById_ok by exact Hfault. rewrite Hfound. reflexivity. }
  rewrite Hrun. unfold returns, removeEntity, catch, then_, entity_remove.
  cbn [truthy]. unfold store_op. cbn [db log].
  destruct (fault (db w) (Remove (VObj d))) as [err|] eqn:Hrm.
  - unfold handleError, respond, log. simpl.
    repeat rewrite <- app_assoc. reflexivity.
  - rewrite Hid. split.
    + unfold respond, set_db, log. simpl.
      repeat rewrite <- app_assoc. reflexivity.
    + intros body' w2 Hdb Hshow.
      rewrite show_absent_id.
      * rewrite Hdb. reflexivity.
      * rewrite Hdb. exact Hshow.
      * rewrite Hdb. apply lookup_removed.
Qed.

(** ** Search *)

(** C7, as the code has it: when the text is a pattern the
    regular-expression constructor accepts, search asks the store for the
    events whose name the pattern matches somewhere, case ignored, and
    responds 200 with the array (possibly empty) of exactly those events,
    host expanded; if the store fails the query, it responds 500 with the
    error. *)
Theorem search_responds_with_matches (ps : params) (body : value)
  (w : world) :
  let r := mkRegExp (param_text ps) "i" in
  let found := List.filter (matches (QNameRegex r)) (db w) in
  regexp_syntax (param_text ps) "i" = true ->
  match fault (db w) (Find (QNameRegex r) host_path) with
  | None =>
      search (mkRequest ps body) w =
      (Return (Fulfilled ResObject),
       mkWorld (db w)
               (res w ++ [Status 200;
                          Json (VArr (map (fun d =>
                                             VObj (populate_all host_path d))
                                          found))])
               (calls w ++ [Find (QNameRegex r) host_path]))
  | Some err =>
      search (mkRequest ps body) w =
      (Return (Fulfilled (Val VUndefined)),
       mkWorld (db w) (res w ++ [Status 500; Send err])
               (calls w ++ [Find (QNameRegex r) host_path]))
  end /\
  forall d : document,
    In d found <->
    In d (db w) /\
    exists name, assoc "name" d = Some (VStr name) /\
                 regexp_test r name = true.
Proof.
  intros r found Hsyntax. split.
  - unfold search, new_RegExp. cbn [req_body req_params].
    rewrite Hsyntax. fold r.
    unfold returns, find_chain, catch, then_, Event_find.
    destruct (fault (db w) (Find (QNameRegex r) host_path)) as [err|] eqn:E.
    + rewrite (store_op_fault _ _ _ err) by exact E. reflexivity.
    + rewrite store_op_ok by exact E. reflexivity.
  - intros d. unfold found. rewrite filter_In. simpl.
    split; intros [Hin Hm]; (split; [exact Hin|]).
    + destruct (assoc "name" d) as [[]|]; try discriminate. eauto.
    + destruct Hm as (name & -> & Ht). exact Ht.
Qed.

(** ** Upsert and patch keep identifiers *)

(** Whatever the update, [findOneAndUpdate] touches no document but the one
    named in its condition. *)
Lemma findOneAndUpdate_frame (id k : string) (update : value) (w : world) :
  k <> id ->
  lookup_id k (db (snd (Event_findOneAndUpdate id update w))) =
  lookup_id k (db w).
Proof.
  intros Hne. unfold Event_findOneAndUpdate, store_op.
  destruct (fault (db w) _); [reflexivity|].
  destruct update as [| |b|n|s|items|props]; try reflexivity.
  destruct (keeps_id id props) eqn:Hk; [|reflexivity].
  destruct (lookup_id id (db w)) as [d|] eqn:Hd; simpl.
  - apply lookup_replace_other; [exact Hne|].
    apply set_fields_has_id; [exact Hk|].
    exact (lookup_id_has_id _ _ _ Hd).
  - rewrite lookup_snoc.
    destruct (lookup_id k (db w)); [reflexivity|].
    rewrite (has_id_unique id k); [reflexivity| |exact Hne].
    apply set_fields_has_id; [exact Hk|].
    unfold has_id. simpl. apply String.eqb_refl.
Qed.

(** With an update that leaves the identifier alone and a store that
    answers, the document named in the condition is there afterwards, and
    it is the one the promise resolves to. *)
Lemma findOneAndUpdate_ok (id : string) (props : document) (w : world) :
  fault (db w) (FindOneAndUpdate id (VObj props)) = None ->
  keeps_id id props = true ->
  exists d',
    fst (Event_findOneAndUpdate id (VObj props) w) = Fulfilled (VObj d') /\
    lookup_id id (db (snd (Event_findOneAndUpdate id (VObj props) w))) =
      Some d' /\
    res (snd (Event_findOneAndUpdate id (VObj props) w)) = res w.
Proof.
  intros Hfault Hk. unfold Event_findOneAndUpdate.
  rewrite store_op_ok by exact Hfault. rewrite Hk.
  destruct (lookup_id id (db w)) as [d|] eqn:Hd; simpl.
  - exists (set_fields props d). split; [reflexivity|]. split; [|reflexivity].
    apply (lookup_replace_same id d); [exact Hd|].
    apply set_fields_has_id; [exact Hk|].
    exact (lookup_id_has_id _ _ _ Hd).
  - exists (set_fields props [("_id", VStr id)]).
    split; [reflexivity|]. split; [|reflexivity].
    rewrite lookup_snoc, Hd.
    rewrite set_fields_has_id; [reflexivity|exact Hk|].
    unfold has_id. simpl. apply String.eqb_refl.
Qed.








(** ** Status codes *)

Lemma writes_listed_refl (w : world) : writes_listed w w.
Proof. exists []. split; [symmetry; apply app_nil_r|constructor]. Qed.

Lemma writes_listed_same (w w' : world) :
  res w' = res w -> writes_listed w w'.
Proof.
  intros E. exists []. rewrite E. split; [symmetry; apply app_nil_r|].
  constructor.
Qed.

Lemma writes_listed_trans (w1 w2 w3 : world) :
  writes_listed w1 w2 -> writes_listed w2 w3 -> writes_listed w1 w3.
Proof.
  intros (a & Ha & Fa) (b & Hb & Fb). exists (a ++ b)%list. split.
  - rewrite Hb, Ha, app_assoc. reflexivity.
  - apply Forall_app. split; assumption.
Qed.

Lemma writes_listed_respond (cs : list res_call) (w : world) :
  Forall listed cs -> writes_listed w (respond cs w).
Proof. intros Hcs. exists cs. split; [reflexivity|exact Hcs]. Qed.

Lemma well_behaved_then {A B : Type} (p : promise A) (f : A -> promise B) :
  well_behaved p -> (forall a, well_behaved (f a)) ->
  well_behaved (p >>then f).
Proof.
  intros Hp Hf w. unfold then_. specialize (Hp w).
  destruct (p w) as [[a|err] w1]; simpl in *; [|exact Hp].
  apply (writes_listed_trans w w1); [exact Hp|apply Hf].
Qed.

Lemma well_behaved_catch {A : Type} (p : promise A)
  (h : value -> promise A) :
  well_behaved p -> (forall err, well_behaved (h err)) ->
  well_behaved (p >>catch h).
Proof.
  intros Hp Hh w. unfold catch. specialize (Hp w).
  destruct (p w) as [[a|err] w1]; simpl in *; [exact Hp|].
  apply (writes_listed_trans w w1); [exact Hp|apply Hh].
Qed.

Lemma well_behaved_store_op (c : call)
  (run : list document -> settled value * list document) :
  well_behaved (store_op c run).
Proof.
  intros w. destruct (store_op_calls c run w) as [_ Hres].
  exists []. split; [rewrite Hres; symmetry; apply app_nil_r|constructor].
Qed.

Lemma well_behaved_resolve {A : Type} (a : A) : well_behaved (resolve a).
Proof. intros w. apply writes_listed_refl. Qed.

Lemma well_behaved_reject {A : Type} (err : value) :
  well_behaved (@reject A err).
Proof. intros w. apply writes_listed_refl. Qed.

Lemma well_behaved_respondWithResult (statusCode : option Z)
  (entity : value) :
  statusCode = None \/ statusCode = Some 201 ->
  well_behaved (respondWithResult statusCode entity).
Proof.
  intros Hsc w. unfold respondWithResult.
  destruct (truthy entity); [|apply writes_listed_refl].
  apply writes_listed_respond.
  destruct Hsc as [-> | ->]; listed_calls.
Qed.

Lemma well_behaved_handleError (err : value) :
  well_behaved (handleError None err).
Proof.
  intros w. apply writes_listed_respond. listed_calls.
Qed.

Lemma well_behaved_handleEntityNotFound (entity : value) :
  well_behaved (handleEntityNotFound entity).
Proof.
  intros w. unfold handleEntityNotFound.
  destruct (truthy entity); simpl; [apply writes_listed_refl|].
  apply writes_listed_respond. listed_calls.
Qed.

Lemma well_behaved_entity_save (entity : value) :
  well_behaved (entity_save entity).
Proof.
  destruct entity; simpl; try apply well_behaved_reject.
  apply well_behaved_store_op.
Qed.

Lemma well_behaved_entity_remove (entity : value) :
  well_behaved (entity_remove entity).
Proof.
  destruct entity; simpl; try apply well_behaved_reject.
  apply well_behaved_store_op.
Qed.

Lemma well_behaved_patchUpdates (patches entity : value) :
  well_behaved (patchUpdates patches entity).
Proof.
  intros w. unfold patchUpdates.
  destruct (jsonpatch_apply entity patches) as [e|err].
  - apply (writes_listed_trans w (log (JsonpatchApply entity patches) w)).
    + apply writes_listed_same. reflexivity.
    + apply well_behaved_entity_save.
  - apply writes_listed_same. reflexivity.
Qed.

Lemma well_behaved_removeEntity (entity : value) :
  well_behaved (removeEntity entity).
Proof.
  unfold removeEntity. destruct (truthy entity).
  - apply well_behaved_then; [apply well_behaved_entity_remove|].
    intros _ w. apply writes_listed_respond. listed_calls.
  - apply well_behaved_resolve.
Qed.

Lemma well_behaved_returns (p : promise chain_value) (w : world) :
  well_behaved p -> writes_listed w (snd (returns p w)).
Proof.
  intros Hp. unfold returns. specialize (Hp w). destruct (p w). exact Hp.
Qed.

Create HintDb listed.

#[local] Hint Resolve well_behaved_store_op well_behaved_handleError
  well_behaved_handleEntityNotFound well_behaved_patchUpdates
  well_behaved_removeEntity well_behaved_entity_save
  well_behaved_entity_remove : listed.

Ltac behaves :=
  unfold Event_find, Event_findById, Event_create, Event_findOneAndUpdate;
  repeat first
    [ apply well_behaved_catch
    | apply well_behaved_then
    | apply well_behaved_respondWithResult; tauto
    | solve [auto with listed]
    | match goal with |- forall _, well_behaved _ => intro end ].

Lemma well_behaved_find_chain (q : query) :
  well_behaved (find_chain q >>catch handleError None).
Proof.
  unfold find_chain. behaves.
Qed.

(** C5: whatever the handler and however its execution goes, the status
    codes it writes to the response are among 200, 201, 204, 404 and 500. *)
Theorem status_codes_are_listed (o : operation) (req : request)
  (w : world) :
  exists written,
    res (snd (run o req w)) = (res w ++ written)%list /\
    Forall listed written.
Proof.
  change (writes_listed w (snd (run o req w))).
  destruct o; simpl.
  - apply well_behaved_returns, well_behaved_find_chain.
  - apply well_behaved_returns. unfold show_chain.
    behaves.
  - apply well_behaved_returns. unfold create_chain.
    behaves.
  - unfold upsert. destruct (strip_id (req_body req));
      [|apply writes_listed_refl].
    apply well_behaved_returns. unfold upsert_chain.
    behaves.
  - unfold patch. destruct (strip_id (req_body req));
      [|apply writes_listed_refl].
    apply well_behaved_returns. unfold patch_chain.
    behaves.
  - apply well_behaved_returns. unfold destroy_chain.
    behaves.
  - unfold search. destruct (new_RegExp _ _); [|apply writes_listed_refl].
    apply well_behaved_returns, well_behaved_find_chain.
  - apply well_behaved_returns, well_behaved_find_chain.
  - apply well_behaved_returns, well_behaved_find_chain.
  - apply well_behaved_returns, well_behaved_find_chain.
Qed.

(** ** Failures *)

Lemma run_chain_of (o : operation) (req : request) (w : world) :
  run o req w =
  match chain_of o req with
  | Throw err => (Throw err, w)
  | Return p => returns (p >>catch handleError None) w
  end.
Proof.
  destruct o; simpl; try reflexivity.
  - unfold upsert. destruct (strip_id (req_body req)); reflexivity.
  - unfold patch. destruct (strip_id (req_body req)); reflexivity.
  - unfold search. destruct (new_RegExp _ _); reflexivity.
Qed.

(** A rejected chain ends in the error handler: 500 and the error. *)
Lemma rejected_is_caught (p : promise chain_value) (w w1 : world)
  (err : value) :
  p w = (Rejected err, w1) ->
  returns (p >>catch handleError None) w =
  (Return (Fulfilled (Val VUndefined)), respond [Status 500; Send err] w1).
Proof. intros E. unfold returns, catch. rewrite E. reflexivity. Qed.

Lemma then_rejected {A B : Type} (p : promise A) (f : A -> promise B)
  (w w1 : world) (err : value) :
  (p >>then f) w = (Rejected err, w1) ->
  p w = (Rejected err, w1) \/
  exists a w0, p w = (Fulfilled a, w0) /\ f a w0 = (Rejected err, w1).
Proof.
  unfold then_. destruct (p w) as [[a|e] w0]; intros E.
  - right. exists a, w0. split; [reflexivity|exact E].
  - left. injection E as -> ->. reflexivity.
Qed.

Lemma store_op_res (c : call)
  (run : list document -> settled value * list document) (w w1 : world)
  (s : settled value) :
  store_op c run w = (s, w1) -> res w1 = res w.
Proof.
  intros E. destruct (store_op_calls c run w) as [_ Hres].
  rewrite E in Hres. exact Hres.
Qed.

Lemma respondWithResult_fulfils (statusCode : option Z) (entity : value)
  (w w1 : world) (err : value) :
  respondWithResult statusCode entity w <> (Rejected err, w1).
Proof. unfold respondWithResult, resolve. destruct (truthy entity); discriminate. Qed.

Lemma entity_save_res (entity : value) (w w1 : world) (s : settled value) :
  entity_save entity w = (s, w1) -> res w1 = res w.
Proof.
  destruct entity; simpl; unfold reject;
    try (intros E; injection E as _ <-; reflexivity).
  apply store_op_res.
Qed.

Lemma entity_remove_res (entity : value) (w w1 : world) (s : settled value) :
  entity_remove entity w = (s, w1) -> res w1 = res w.
Proof.
  destruct entity; simpl; unfold reject;
    try (intros E; injection E as _ <-; reflexivity).
  apply store_op_res.
Qed.

Lemma patchUpdates_res (patches entity : value) (w w1 : world)
  (s : settled value) :
  patchUpdates patches entity w = (s, w1) -> res w1 = res w.
Proof.
  unfold patchUpdates. destruct (jsonpatch_apply entity patches).
  - intros E. apply entity_save_res in E. exact E.
  - intros E. injection E as _ <-. reflexivity.
Qed.

(** A store call followed by the result responder rejects only when the
    call does, with nothing written. *)
Lemma store_then_respond_quiet (p : promise value) (sc : option Z)
  (w w1 : world) (err : value) :
  (forall s w', p w = (s, w') -> res w' = res w) ->
  (p >>then respondWithResult sc) w = (Rejected err, w1) ->
  res w1 = res w.
Proof.
  intros Hp E. apply then_rejected in E as [E|(a & w0 & _ & E)].
  - exact (Hp _ _ E).
  - exfalso. exact (respondWithResult_fulfils _ _ _ _ _ E).
Qed.

Lemma findById_fulfilled (id : string) (paths : list string)
  (w w0 : world) (a : value) :
  Event_findById id paths w = (Fulfilled a, w0) ->
  res w0 = res w /\ db w0 = db w /\
  a = match lookup_id id (db w) with
      | Some d => VObj (populate_all paths d)
      | None => VNull
      end.
Proof.
  unfold Event_findById, store_op.
  destruct (fault (db w) (FindById id paths)); [discriminate|].
  intros E. injection E as <- <-. auto.
Qed.

Lemma handleEntityNotFound_found (id : string) (paths : list string)
  (w w0 w1 : world) (a b : value) :
  Event_findById id paths w = (Fulfilled a, w0) ->
  handleEntityNotFound a w0 = (Fulfilled b, w1) ->
  match lookup_id id (db w) with
  | Some _ => truthy b = true /\ res w1 = res w
  | None => b = VNull /\ res w1 = (res w ++ [Status 404; End])%list
  end.
Proof.
  intros Hf Hn. apply findById_fulfilled in Hf as (Hres & _ & ->).
  unfold handleEntityNotFound, resolve in Hn.
  destruct (lookup_id id (db w)); simpl in Hn; injection Hn as <- <-.
  - split; [reflexivity|exact Hres].
  - split; [reflexivity|]. simpl. rewrite Hres. reflexivity.
Qed.

Lemma handleEntityNotFound_fulfils (a : value) (w w1 : world) (err : value) :
  handleEntityNotFound a w <> (Rejected err, w1).
Proof.
  unfold handleEntityNotFound, resolve. destruct (truthy a); discriminate.
Qed.

Ltac quiet_store Hrej :=
  unfold index_chain, find_chain, create_chain, upsert_chain,
    Event_find, Event_create, Event_findOneAndUpdate in Hrej;
  eapply store_then_respond_quiet; [|exact Hrej];
  intros; eapply store_op_res; eassumption.

(** C4: in every handler, when a stage of the chain fails (the store
    rejects, validation fails, the applier throws), the handler answers
    with status 500 and the error as it was received. Nothing else has
    been written by then, except in a patch whose entity was not found,
    which has already written its 404. *)
Theorem failure_is_answered_500 (o : operation) (req : request)
  (p : promise chain_value) (w w1 : world) (err : value) :
  chain_of o req = Return p ->
  p w = (Rejected err, w1) ->
  run o req w =
    (Return (Fulfilled (Val VUndefined)),
     respond [Status 500; Send err] w1) /\
  (res (snd (run o req w)) = (res w ++ [Status 500; Send err])%list \/
   (o = Patch /\
    lookup_id (param_id (req_params req)) (db w) = None /\
    res w1 = (res w ++ [Status 404; End])%list)).
Proof.
  intros Hchain Hrej.
  assert (Hrun : run o req w =
                 (Return (Fulfilled (Val VUndefined)),
                  respond [Status 500; Send err] w1)).
  { rewrite run_chain_of, Hchain. apply rejected_is_caught. exact Hrej. }
  split; [exact Hrun|]. rewrite Hrun. simpl.
  assert (Hquiet : res w1 = res w -> 
                   (res w1 ++ [Status 500; Send err])%list =
                   (res w ++ [Status 500; Send err])%list)
    by (intros ->; reflexivity).
  destruct o; simpl in Hchain.
  - injection Hchain as <-. left. apply Hquiet.
    quiet_store Hrej.
  - injection Hchain as <-. left. apply Hquiet.
    unfold show_chain in Hrej.
    apply then_rejected in Hrej as [E|(a & w0 & _ & E)];
      [|exfalso; exact (respondWithResult_fulfils _ _ _ _ _ E)].
    apply then_rejected in E as [E|(a & w0 & _ & E)];
      [|exfalso; exact (handleEntityNotFound_fulfils _ _ _ _ E)].
    exact (store_op_res _ _ _ _ _ E).
  - injection Hchain as <-. left. apply Hquiet.
    quiet_store Hrej.
  - destruct (strip_id (req_body req)); [|discriminate].
    injection Hchain as <-. left. apply Hquiet.
    quiet_store Hrej.
  - destruct (strip_id (req_body req)) as [patches|]; [|discriminate].
    injection Hchain as <-. unfold patch_chain in Hrej.
    apply then_rejected in Hrej as [E|(a & w0 & _ & E)];
      [|exfalso; exact (respondWithResult_fulfils _ _ _ _ _ E)].
    apply then_rejected in E as [E|(b & w2 & Hfound & E)].
    + apply then_rejected in E as [E|(a & w0 & _ & E)];
        [|exfalso; exact (handleEntityNotFound_fulfils _ _ _ _ E)].
      left. apply Hquiet. exact (store_op_res _ _ _ _ _ E).
    + apply patchUpdates_res in E.
      unfold then_ in Hfound.
      destruct (Event_findById (param_id (req_params req)) [] w)
        as [[a|e] w0] eqn:Hf; [|discriminate].
      pose proof (handleEntityNotFound_found _ _ _ _ _ _ _ Hf Hfound) as Hn.
      destruct (lookup_id (param_id (req_params req)) (db w)).
      * left. apply Hquiet. destruct Hn as [_ Hn]. congruence.
      * right. destruct Hn as [_ Hn]. split; [reflexivity|].
        split; [reflexivity|]. congruence.
  - injection Hchain as <-. left. apply Hquiet.
    unfold destroy_chain in Hrej.
    apply then_rejected in Hrej as [E|(b & w2 & Hfound & E)].
    + apply then_rejected in E as [E|(a & w0 & _ & E)];
        [|exfalso; exact (handleEntityNotFound_fulfils _ _ _ _ E)].
      exact (store_op_res _ _ _ _ _ E).
    + unfold then_ in Hfound.
      destruct (Event_findById (param_id (req_params req)) [] w)
        as [[a|e] w0] eqn:Hf; [|discriminate].
      pose proof (handleEntityNotFound_found _ _ _ _ _ _ _ Hf Hfound) as Hn.
      unfold removeEntity in E.
      destruct (lookup_id (param_id (req_params req)) (db w)).
      * destruct Hn as [Hb Hn]. rewrite Hb in E.
        apply then_rejected in E as [E|(x & w3 & _ & E)]; [|discriminate].
        apply entity_remove_res in E. congruence.
      * destruct Hn as [-> _]. discriminate.
  - destruct (new_RegExp _ _); [|discriminate].
    injection Hchain as <-. left. apply Hquiet.
    quiet_store Hrej.
  - injection Hchain as <-. left. apply Hquiet.
    quiet_store Hrej.
  - injection Hchain as <-. left. apply Hquiet.
    quiet_store Hrej.
  - injection Hchain as <-. left. apply Hquiet.
    quiet_store Hrej.
Qed.

(** * Further properties of the handlers *)

(** ** The list handlers *)

(** What a list chain does, whatever its condition. *)
Lemma find_chain_run (q : query) (w : world) :
  returns (find_chain q >>catch handleError None) w =
  match fault (db w) (Find q host_path) with
  | None =>
      (Return (Fulfilled ResObject),
       mkWorld (db w)
               (res w ++ [Status 200;
                          Json (VArr (map (fun d =>
                                             VObj (populate_all host_path d))
                                          (List.filter (matches q) (db w))))])
               (calls w ++ [Find q host_path]))
  | Some err =>
      (Return (Fulfilled (Val VUndefined)),
       mkWorld (db w) (res w ++ [Status 500; Send err])
               (calls w ++ [Find q host_path]))
  end.
Proof.
  unfold returns, find_chain, catch, then_, Event_find.
  destruct (fault (db w) (Find q host_path)) as [err|] eqn:E.
  - rewrite (store_op_fault _ _ _ err) by exact E. reflexivity.
  - rewrite store_op_ok by exact E. reflexivity.
Qed.

(** X1: index, hosting, going and favorite each make one [Event.find]
    call, with the condition built from their route parameter and the host
    populated. When the store answers they respond 200 with the array of
    the selected events, also when it is empty (an array is truthy, so the
    result responder always writes); when the store fails they respond 500
    with the error. The collection is left as it was. *)
Theorem list_handlers_answer_with_an_array (req : request) (w : world) :
  let answer (q : query) :=
    match fault (db w) (Find q host_path) with
    | None =>
        (Return (Fulfilled ResObject),
         mkWorld (db w)
                 (res w ++ [Status 200;
                            Json (VArr (map (fun d =>
                                               VObj (populate_all host_path d))
                                            (List.filter (matches q) (db w))))])
                 (calls w ++ [Find q host_path]))
    | Some err =>
        (Return (Fulfilled (Val VUndefined)),
         mkWorld (db w) (res w ++ [Status 500; Send err])
                 (calls w ++ [Find q host_path]))
    end in
  index req w = answer QAll /\
  hosting req w = answer (QHost (param_host (req_params req))) /\
  going req w =
    answer (QParticipantsUser (param_participant (req_params req))) /\
  favorite req w = answer (QFavoritesBy (param_user (req_params req))).
Proof. cbv zeta. repeat split; apply find_chain_run. Qed.

(** ** Show *)

(** The three ways a show can go. *)
Lemma show_run (ps : params) (body : value) (w : world) :
  show (mkRequest ps body) w =
  match fault (db w) (FindById (param_id ps) show_paths) with
  | Some err =>
      (Return (Fulfilled (Val VUndefined)),
       mkWorld (db w) (res w ++ [Status 500; Send err])
               (calls w ++ [FindById (param_id ps) show_paths]))
  | None =>
      match lookup_id (param_id ps) (db w) with
      | Some d =>
          (Return (Fulfilled ResObject),
           mkWorld (db w)
                   (res w ++ [Status 200;
                              Json (VObj (populate_all show_paths d))])
                   (calls w ++ [FindById (param_id ps) show_paths]))
      | None =>
          (Return (Fulfilled (Val VNull)),
           mkWorld (db w) (res w ++ [Status 404; End])
                   (calls w ++ [FindById (param_id ps) show_paths]))
      end
  end.
Proof.
  unfold show, returns, show_chain, catch, then_. cbn [req_body req_params].
  destruct (fault (db w) (FindById (param_id ps) show_paths)) as [err|] eqn:E.
  - unfold Event_findById. rewrite (store_op_fault _ _ _ err) by exact E.
    reflexivity.
  - rewrite findById_paths_ok by exact E.
    destruct (lookup_id (param_id ps) (db w)); reflexivity.
Qed.

(** X2: show makes one lookup, with host and participants populated. If
    the store fails it responds 500 with the error; if a document has the
    identifier it responds 200 with that document; if none has, 404 with
    no body. The collection is left as it was. *)
Theorem show_answers (ps : params) (body : value) (w : world) :
  show (mkRequest ps body) w =
  match fault (db w) (FindById (param_id ps) show_paths) with
  | Some err =>
      (Return (Fulfilled (Val VUndefined)),
       mkWorld (db w) (res w ++ [Status 500; Send err])
               (calls w ++ [FindById (param_id ps) show_paths]))
  | None =>
      match lookup_id (param_id ps) (db w) with
      | Some d =>
          (Return (Fulfilled ResObject),
           mkWorld (db w)
                   (res w ++ [Status 200;
                              Json (VObj (populate_all show_paths d))])
                   (calls w ++ [FindById (param_id ps) show_paths]))
      | None =>
          (Return (Fulfilled (Val VNull)),
           mkWorld (db w) (res w ++ [Status 404; End])
                   (calls w ++ [FindById (param_id ps) show_paths]))
      end
  end.
Proof. apply show_run. Qed.

(** ** Synchronous exceptions *)

(** X3: a handler throws, instead of returning a promise, in two situations
    only: upsert and patch when the request has no body to read [_id] from
    (undefined or null), and search when the text is not a pattern the
    regular-expression constructor accepts. It has then written nothing and
    called no collaborator. *)
Theorem handler_throws_iff (o : operation) (req : request) (w : world) :
  ((exists err, fst (run o req w) = Throw err) <->
   ((o = Upsert \/ o = Patch) /\
    (req_body req = VUndefined \/ req_body req = VNull)) \/
   (o = Search /\ regexp_syntax (param_text (req_params req)) "i" = false)) /\
  (forall err, fst (run o req w) = Throw err -> snd (run o req w) = w).
Proof.
  assert (Hret : forall p : promise chain_value,
            exists s, fst (returns p w) = Return s).
  { intros p. unfold returns. destruct (p w) as [s w']. exists s. reflexivity. }
  assert (Hno : forall p : promise chain_value,
            ~ exists err, fst (returns p w) = Throw err).
  { intros p [err E]. destruct (Hret p) as [s Hs]. congruence. }
  assert (Hsnd : forall (p : promise chain_value) err,
            fst (returns p w) = Throw err -> snd (returns p w) = w).
  { intros p err E. destruct (Hret p) as [s Hs]. congruence. }
  destruct o; simpl;
    try (split; [split; [intros E; exfalso; exact (Hno _ E)
                        |intros [[[?|?] _]|[? _]]; discriminate]
                |apply Hsnd]).
  - (* upsert *)
    unfold upsert, strip_id.
    destruct (req_body req); simpl;
      try (split; [split; [intros E; exfalso; exact (Hno _ E)
                          |intros [[_ [?|?]]|[? _]]; discriminate]
                  |apply Hsnd]);
      (split; [split; [intros _; left; split; [left|]; auto
                      |intros _; eexists; reflexivity]
              |reflexivity]).
  - (* patch *)
    unfold patch, strip_id.
    destruct (req_body req); simpl;
      try (split; [split; [intros E; exfalso; exact (Hno _ E)
                          |intros [[_ [?|?]]|[? _]]; discriminate]
                  |apply Hsnd]);
      (split; [split; [intros _; left; split; [right|]; auto
                      |intros _; eexists; reflexivity]
              |reflexivity]).
  - (* search *)
    unfold search, new_RegExp.
    destruct (regexp_syntax (param_text (req_params req)) "i"); simpl.
    + split; [split; [intros E; exfalso; exact (Hno _ E)
                     |intros [[[?|?] _]|[_ ?]]; discriminate]
             |apply Hsnd].
    + split; [split; [intros _; right; auto|intros _; eexists; reflexivity]
             |reflexivity].
Qed.

(** ** Identifier stripping *)

(** X4: whatever the body, stripping removes nothing but [_id]: every other
    property reads as before; the body that goes on never has a truthy
    [_id]; and stripping it again changes nothing. *)
Theorem strip_id_only_removes_id (body stripped : value) :
  strip_id body = Return stripped ->
  (forall k, k <> "_id" -> field k stripped = field k body) /\
  (exists v, get_id stripped = Return v /\ truthy v = false) /\
  strip_id stripped = Return stripped.
Proof.
  intros E.
  destruct body as [| |b|n|s|items|props]; try discriminate;
    try (injection E as <-;
         split; [reflexivity|split; [exists VUndefined; auto|reflexivity]]).
  rewrite strip_id_object in E. injection E as <-.
  destruct (truthy (default VUndefined (assoc "_id" props))) eqn:T.
  - split; [|split].
    + intros k Hk. simpl. apply assoc_del_other. congruence.
    + exists VUndefined. simpl. rewrite assoc_del_same. auto.
    + rewrite strip_id_object, assoc_del_same. reflexivity.
  - split; [reflexivity|]. split.
    + exists (default VUndefined (assoc "_id" props)). auto.
    + rewrite strip_id_object, T. reflexivity.
Qed.

(** ** One response per request *)

(** X5: every handler that returns writes a response, of a kind that depends
    on the operation: the list handlers, search and upsert answer 200 with
    a JSON body or 500 with an error; show may also answer 404 with no
    body; create answers 201 or 500; destroy answers 204 or 404 with no
    body, or 500. patch answers 200 or 500, and on a missing entity 404
    followed by a second write of 500. A handler that throws writes
    nothing. *)
Theorem one_response_per_request (o : operation) (req : request)
  (w : world) :
  exists written,
    res (snd (run o req w)) = (res w ++ written)%list /\
    ((written = [] /\ exists err, fst (run o req w) = Throw err) \/
     let ok (code : Z) := exists v, written = [Status code; Json v] in
     let failed := exists err, written = [Status 500; Send err] in
     let absent := written = [Status 404; End] in
     match o with
     | Index | Search | Hosting | Going | Favorite | Upsert =>
         ok 200 \/ failed
     | Show => ok 200 \/ absent \/ failed
     | Create_ => ok 201 \/ failed
     | Destroy => written = [Status 204; End] \/ absent \/ failed
     | Patch =>
         ok 200 \/ failed \/
         exists err, written = [Status 404; End; Status 500; Send err]
     end).
Proof.
  destruct o; simpl run.
  - change (index req w)
      with (returns (find_chain QAll >>catch handleError None) w).
    rewrite find_chain_run.
    destruct (fault _ _); eexists; (split; [reflexivity|]);
      right; simpl; eauto.
  - destruct req as [ps body]. rewrite show_run.
    destruct (fault _ _); [|destruct (lookup_id _ _)];
      eexists; (split; [reflexivity|]); right; simpl; eauto.
  - unfold create, returns, create_chain, catch, then_, Event_create, store_op.
    destruct (fault _ _); simpl.
    + eexists; (split; [reflexivity|]); right; simpl; eauto.
    + destruct (req_body req) as [| |b|n|s|items|props]; simpl;
        try (eexists; (split; [reflexivity|]); right; simpl; eauto; fail).
      destruct (assoc "_id" props) as [[| |b|n|k|items|ps]|]; simpl;
        try (eexists; (split; [reflexivity|]); right; simpl; eauto; fail).
      destruct (lookup_id k (db w)); simpl;
        eexists; (split; [reflexivity|]); right; simpl; eauto.
  - unfold upsert. destruct (strip_id (req_body req)) as [body|err].
    + unfold returns, upsert_chain, catch, then_, Event_findOneAndUpdate,
        store_op.
      destruct (fault _ _); simpl.
      * eexists; (split; [reflexivity|]); right; simpl; eauto.
      * destruct body as [| |b|n|s|items|props]; simpl;
          try (eexists; (split; [reflexivity|]); right; simpl; eauto; fail).
        destruct (keeps_id _ props); [destruct (lookup_id _ (db w))|]; simpl;
          eexists; (split; [reflexivity|]); right; simpl; eauto.
    + exists []. split; [symmetry; apply app_nil_r|]. left. eauto.
  - unfold patch. destruct (strip_id (req_body req)) as [body|err].
    + unfold returns, patch_chain, catch, then_, Event_findById, store_op.
      destruct (fault _ _); simpl.
      * eexists; (split; [reflexivity|]); right; simpl; eauto.
      * destruct (lookup_id _ (db w)) as [d|]; simpl; unfold patchUpdates.
        -- destruct (jsonpatch_apply (VObj d) body) as [e|err]; simpl;
             [|eexists; (split; [reflexivity|]); right; simpl; eauto].
           destruct e as [| |b|n|s|items|props]; simpl;
             try (eexists; (split; [reflexivity|]); right; simpl; eauto; fail).
           unfold store_op; simpl.
           destruct (fault _ _); simpl;
             [eexists; (split; [reflexivity|]); right; simpl; eauto|].
           destruct (doc_id (VObj props)) as [k|];
             [destruct (lookup_id k (db w))|]; simpl;
             eexists; (split; [reflexivity|]); right; simpl; eauto.
        -- destruct (jsonpatch_apply VNull body) as [e|err]; simpl;
             eexists; (split; [app_norm|]); right; simpl; eauto.
    + exists []. split; [symmetry; apply app_nil_r|]. left. eauto.
  - unfold destroy, returns, destroy_chain, catch, then_, Event_findById,
      store_op.
    destruct (fault _ _); simpl.
    + eexists; (split; [reflexivity|]); right; simpl; eauto.
    + destruct (lookup_id _ (db w)) as [d|]; simpl;
        [|eexists; (split; [reflexivity|]); right; simpl; eauto].
      unfold removeEntity, entity_remove, then_, store_op; simpl.
      destruct (fault (db w) (Remove (VObj d))); simpl;
        [eexists; (split; [app_norm|]); right; simpl; eauto|].
      destruct (doc_id (VObj d)); simpl;
        eexists; (split; [reflexivity|]); right; simpl; eauto.
  - unfold search. destruct (new_RegExp _ _) as [r|err].
    + unfold returns, find_chain, catch, then_, Event_find, store_op.
      destruct (fault _ _); simpl;
        eexists; (split; [reflexivity|]); right; simpl; eauto.
    + exists []. split; [symmetry; apply app_nil_r|]. left. eauto.
  - unfold hosting, going, favorite. rewrite find_chain_run.
    destruct (fault _ _); eexists; (split; [reflexivity|]);
      right; simpl; eauto.
  - unfold hosting, going, favorite. rewrite find_chain_run.
    destruct (fault _ _); eexists; (split; [reflexivity|]);
      right; simpl; eauto.
  - unfold hosting, going, favorite. rewrite find_chain_run.
    destruct (fault _ _); eexists; (split; [reflexivity|]);
      right; simpl; eauto.
Qed.

(** ** What patch and destroy call, and when *)

(** X6: patch saves only what the applier returned for the entity it found:
    the calls of a patch are the lookup alone (the store failed), the
    lookup and the application (the applier threw, or the entity was
    missing and the application ran on null), or the lookup, the
    application on the found document and the save of its patched form. *)
Theorem patch_call_protocol (ps : params) (body patches : value)
  (w : world) :
  strip_id body = Return patches ->
  let id := param_id ps in
  let made (cs : list call) :=
    calls (snd (patch (mkRequest ps body) w)) = (calls w ++ cs)%list in
  made [FindById id []] \/
  (exists entity,
     made [FindById id []; JsonpatchApply entity patches] /\
     db (snd (patch (mkRequest ps body) w)) = db w) \/
  (exists d e,
     lookup_id id (db w) = Some d /\
     jsonpatch_apply (VObj d) patches = Patched (VObj e) /\
     made [FindById id []; JsonpatchApply (VObj d) patches; Save (VObj e)]).
Proof.
  intros Hstrip id made. unfold made, patch.
  cbn [req_body req_params]. rewrite Hstrip. fold id.
  unfold returns, patch_chain, catch, then_, Event_findById, store_op.
  destruct (fault (db w) (FindById id [])); simpl; [left; reflexivity|].
  destruct (lookup_id id (db w)) as [d|] eqn:Hd; simpl; unfold patchUpdates.
  - destruct (jsonpatch_apply (VObj d) patches) as [e|err] eqn:Ha; simpl;
      [|right; left; exists (VObj d); split; [app_norm|reflexivity]].
    destruct e as [| |b|n|s|items|props]; simpl;
      try (right; left; exists (VObj d); split; [app_norm|reflexivity]).
    right; right. exists d, props. split; [reflexivity|].
    split; [exact Ha|].
    unfold store_op; simpl.
    destruct (fault (db w) (Save (VObj props))); simpl; [app_norm|].
    destruct (doc_id (VObj props)) as [k|];
      [destruct (lookup_id k (db w))|]; simpl; app_norm.
  - right; left. exists VNull.
    destruct (jsonpatch_apply VNull patches); simpl;
      (split; [app_norm|reflexivity]).
Qed.

(** X7: destroy removes only an entity it found: its calls are the lookup
    alone (the store failed, or no document has the identifier, and the
    collection is as it was) or the lookup and the removal of the found
    document. Whatever happens, the documents under every other identifier
    stay. *)
Theorem destroy_call_protocol (ps : params) (body : value) (w : world) :
  let id := param_id ps in
  let w' := snd (destroy (mkRequest ps body) w) in
  ((calls w' = (calls w ++ [FindById id []])%list /\ db w' = db w) \/
   (exists d,
      lookup_id id (db w) = Some d /\
      calls w' = (calls w ++ [FindById id []; Remove (VObj d)])%list)) /\
  (forall k, k <> id -> lookup_id k (db w') = lookup_id k (db w)).
Proof.
  intros id w'. unfold w', destroy.
  cbn [req_body req_params]. fold id.
  unfold returns, destroy_chain, catch, then_, Event_findById, store_op.
  destruct (fault (db w) (FindById id [])); simpl; [split; auto|].
  destruct (lookup_id id (db w)) as [d|] eqn:Hd; simpl; [|split; auto].
  unfold removeEntity, entity_remove, then_, store_op; simpl.
  pose proof (lookup_id_has_id _ _ _ Hd) as Hid.
  apply has_id_doc_id in Hid.
  destruct (fault (db w) (Remove (VObj d))); simpl.
  - split; [right; exists d; split; [reflexivity|app_norm]|auto].
  - rewrite Hid. simpl. split.
    + right. exists d. split; [reflexivity|app_norm].
    + intros k Hk. apply lookup_removed_other. exact Hk.
Qed.

(** ** Patch that succeeds *)

(** X8: when the entity is found and the applier returns its patched form
    under the same identifier, patch saves it and responds 200 with it:
    the patched document is then the one stored under the identifier, and
    the documents under every other identifier are as before. If the save
    fails, patch responds 500 with the error and the collection is as it
    was. *)
Theorem patch_saves_the_patched_entity (ps : params) (ops : list value)
  (d e : document) (w : world) :
  let id := param_id ps in
  let made := [FindById id []; JsonpatchApply (VObj d) (VArr ops);
               Save (VObj e)] in
  fault (db w) (FindById id []) = None ->
  lookup_id id (db w) = Some d ->
  jsonpatch_apply (VObj d) (VArr ops) = Patched (VObj e) ->
  has_id id e = true ->
  match fault (db w) (Save (VObj e)) with
  | None =>
      patch (mkRequest ps (VArr ops)) w =
      (Return (Fulfilled ResObject),
       mkWorld (replace_id id e (db w))
               (res w ++ [Status 200; Json (VObj e)])
               (calls w ++ made)) /\
      lookup_id id (replace_id id e (db w)) = Some e /\
      forall k, k <> id ->
        lookup_id k (replace_id id e (db w)) = lookup_id k (db w)
  | Some err =>
      patch (mkRequest ps (VArr ops)) w =
      (Return (Fulfilled (Val VUndefined)),
       mkWorld (db w) (res w ++ [Status 500; Send err]) (calls w ++ made))
  end.
Proof.
  intros id made Hfault Hfound Happly Hid.
  assert (Hrun : patch (mkRequest ps (VArr ops)) w =
                 returns (entity_save (VObj e)
                            >>then respondWithResult None
                            >>catch handleError None)
                         (log (JsonpatchApply (VObj d) (VArr ops))
                              (log (FindById id []) w))).
  { unfold patch. cbn [req_body req_params]. rewrite strip_id_array.
    fold id. unfold returns, patch_chain, catch, then_.
    rewrite findById_ok by exact Hfault. rewrite Hfound. simpl.
    unfold patchUpdates. rewrite Happly. reflexivity. }
  rewrite Hrun. unfold returns, catch, then_, entity_save, store_op.
  cbn [db log]. pose proof Hid as Hdoc. apply has_id_doc_id in Hdoc.
  destruct (fault (db w) (Save (VObj e))) as [err|].
  - simpl. unfold made, respond, log. simpl.
    repeat rewrite <- app_assoc. reflexivity.
  - rewrite Hdoc, Hfound. split; [|split].
    + simpl. unfold made, respond, set_db, log. simpl.
      repeat rewrite <- app_assoc. reflexivity.
    + apply (lookup_replace_same id d); assumption.
    + intros k Hk. apply lookup_replace_other; assumption.
Qed.

(** ** Create, then show *)

(** X9: a created event can be shown: when the body is an object without an
    identifier and the store assigns one no document has, create stores
    the body under that identifier with every submitted property as it
    was, and responds 201 with the stored document; a show on the
    assigned identifier then responds 200 with that document. *)
Theorem create_then_show (ps : params) (props : document) (w : world) :
  let id := new_id (db w) in
  let d := ("_id", VStr id) :: props in
  let db' := (db w ++ [d])%list in
  assoc "_id" props = None ->
  fault (db w) (Create (VObj props)) = None ->
  lookup_id id (db w) = None ->
  create (mkRequest ps (VObj props)) w =
  (Return (Fulfilled ResObject),
   mkWorld db' (res w ++ [Status 201; Json (VObj d)])
           (calls w ++ [Create (VObj props)])) /\
  (forall k, k <> "_id" -> assoc k d = assoc k props) /\
  forall (ps' : params) (body' : value) (w2 : world),
    param_id ps' = id -> db w2 = db' ->
    fault db' (FindById id show_paths) = None ->
    show (mkRequest ps' body') w2 =
    (Return (Fulfilled ResObject),
     mkWorld db' (res w2 ++ [Status 200;
                             Json (VObj (populate_all show_paths d))])
             (calls w2 ++ [FindById id show_paths])).
Proof.
  intros id d db' Hnoid Hfault Hfresh. split; [|split].
  - unfold create, returns, create_chain, catch, then_, Event_create.
    cbn [req_body req_params].
    rewrite store_op_ok by exact Hfault. rewrite Hnoid. reflexivity.
  - intros k Hk. unfold d. simpl.
    destruct (String.eqb_spec k "_id"); [contradiction|reflexivity].
  - intros ps' body' w2 Hps Hdb Hshow.
    rewrite show_run. rewrite Hps, Hdb, Hshow.
    unfold db'. rewrite lookup_snoc, Hfresh.
    unfold has_id, d. simpl. rewrite String.eqb_refl. reflexivity.
Qed.

End Properties.

(** * The handlers on concrete requests

    The theorems above hold for any collaborators. Here they are applied
    with the reference ones, to a collection of two events. *)

Import Reference.


(** A replace on a path the event does not have: 500, nothing saved. *)
Lemma patch_failed_application_is_not_saved_witness :
  jsonpatch_apply (VObj launch)
                  (VArr [replace_op "/nope" (VStr "Renamed")]) =
    PatchError (patch_error "OPERATION_PATH_UNRESOLVABLE") /\
  patch (req "A" (VArr [replace_op "/nope" (VStr "Renamed")])) world0 =
  (Return (Fulfilled (Val VUndefined)),
   mkWorld [launch; picnic]
           [Status 500; Send (patch_error "OPERATION_PATH_UNRESOLVABLE")]
           [FindById "A" [];
            JsonpatchApply (VObj launch)
                           (VArr [replace_op "/nope" (VStr "Renamed")])]).
Proof.
  split; [reflexivity|].
  exact (patch_failed_application_is_not_saved
           (mkParams "A" "" "" "" "") [replace_op "/nope" (VStr "Renamed")]
           launch (patch_error "OPERATION_PATH_UNRESOLVABLE") world0
           eq_refl eq_refl eq_refl).
Defined.

(** A patch to an identifier no event has: 404, then the applier on null
    and a 500 on the response already ended. *)
Lemma patch_absent_id_goes_on_after_404_witness :
  lookup_id "Z" (db world0) = None /\
  patch (req "Z" (VArr [])) world0 =
  (Return (Fulfilled (Val VUndefined)),
   mkWorld [launch; picnic]
           [Status 404; End; Status 500;
            Send (TypeError "Cannot read property 'save'")]
           [FindById "Z" []; JsonpatchApply VNull (VArr [])]).
Proof.
  split; [reflexivity|].
  exact (patch_absent_id_goes_on_after_404
           (mkParams "Z" "" "" "" "") (VArr []) (VArr []) world0
           eq_refl eq_refl eq_refl).
Defined.

(** A lookup that fails to cast is answered 500 with the cast error. *)
Lemma failure_is_answered_500_witness :
  show_chain "not-an-id" world0 =
    (Rejected cast_error,
     mkWorld [launch; picnic] [] [FindById "not-an-id" show_paths]) /\
  show (req "not-an-id" VUndefined) world0 =
  (Return (Fulfilled (Val VUndefined)),
   mkWorld [launch; picnic] [Status 500; Send cast_error]
           [FindById "not-an-id" show_paths]).
Proof.
  split; [reflexivity|].
  exact (proj1 (failure_is_answered_500 Show (req "not-an-id" VUndefined)
                  (show_chain "not-an-id") world0 _ cast_error
                  eq_refl eq_refl)).
Defined.

(** Deleting event A: 204, and A is gone for a later show. *)
Lemma destroy_then_show_witness :
  lookup_id "A" (db world0) = Some launch /\
  destroy (req "A" VUndefined) world0 =
  (Return (Fulfilled (Val VUndefined)),
   mkWorld [picnic] [Status 204; End]
           [FindById "A" []; Remove (VObj launch)]) /\
  show (req "A" VUndefined) (mkWorld [picnic] [] []) =
  (Return (Fulfilled (Val VNull)),
   mkWorld [picnic] [Status 404; End] [FindById "A" show_paths]).
Proof.
  pose proof (destroy_then_show (mkParams "A" "" "" "" "") VUndefined
                launch world0 eq_refl eq_refl) as [Hdestroy Hshow].
  split; [reflexivity|]. split; [exact Hdestroy|].
  exact (Hshow VUndefined (mkWorld [picnic] [] []) eq_refl eq_refl).
Defined.

(** Searching LAUNCH finds the event named Launch Party. *)
Lemma search_responds_with_matches_witness :
  regexp_syntax "LAUNCH" "i" = true /\
  search (req_text "LAUNCH") world0 =
  (Return (Fulfilled ResObject),
   mkWorld [launch; picnic]
           [Status 200;
            Json (VArr [VObj [("_id", VStr "A"); ("name", VStr "Launch Party");
                              ("host", VObj [("_id", VStr "u1");
                                             ("name", VStr "Ann");
                                             ("imageUrl", VStr "ann.png")])]])]
           [Find (QNameRegex (mkRegExp "LAUNCH" "i")) host_path]).
Proof.
  split; [reflexivity|].
  exact (proj1 (search_responds_with_matches
                  (mkParams "" "LAUNCH" "" "" "") VUndefined world0
                  eq_refl)).
Defined.

(** C7 does not hold for every text: on one that is not a regular
    expression the constructor throws, and search writes no response at
    all, so no 200. *)
Lemma search_invalid_pattern_throws :
  search (req_text "(") world0 =
    (Throw (SyntaxError "Invalid regular expression"), world0) /\
  ~ In (Status 200) (res (snd (search (req_text "(") world0))).
Proof. split; [reflexivity|]. simpl. tauto. Qed.

(** A body whose [_id] is empty goes on as it is, in upsert and patch. *)
Lemma falsy_body_id_is_kept_witness :
  truthy (VStr "") = false /\
  calls (snd (upsert (req "A" body_empty_id) world0)) =
    [FindOneAndUpdate "A" body_empty_id] /\
  exists rest,
    calls (snd (patch (req "A" body_empty_id) world0)) =
    FindById "A" [] :: JsonpatchApply (VObj launch) body_empty_id :: rest.
Proof.
  pose proof (falsy_body_id_is_kept (mkParams "A" "" "" "" "")
                [("_id", VStr ""); ("name", VStr "x")] (VStr "") world0
                eq_refl eq_refl) as (_ & _ & Hupsert & Hpatch).
  split; [reflexivity|]. split; [exact Hupsert|exact Hpatch].
Defined.

(** ** Further runs *)

(** The matches of the scenario: LAUNCH and party find Launch Party, xyz
    does not; a pattern is not a literal text. *)
Example search_launch_party :
  map (fun text => regexp_test (mkRegExp text "i") "Launch Party")
      ["LAUNCH"; "party"; "xyz"; "l.unch"; "launch party"; "y|z"; "LA+UN"]
  = [true; true; false; true; true; true; true].
Proof. vm_compute. reflexivity. Qed.

(** Anchors, classes and escapes are patterns too. *)
Example search_patterns :
  map (fun text => regexp_test (mkRegExp text "i") "Launch Party")
      ["^Launch"; "^party"; "party$"; "[k-m]aunch"; "\w+\s\w+"; "\d"]
  = [true; false; true; true; true; false].
Proof. vm_compute. reflexivity. Qed.

(** Searching a text no name contains: 200 with an empty array. *)
Example search_xyz :
  res (snd (search (req_text "xyz") world0)) = [Status 200; Json (VArr [])].
Proof. vm_compute. reflexivity. Qed.

(** A patch operation on the identifier reaches the applier untouched. *)
Example patch_operation_on_id :
  calls (snd (patch (req "A" (VArr [replace_op "/_id" (VStr "other")]))
                    world0)) =
  [FindById "A" [];
   JsonpatchApply (VObj launch) (VArr [replace_op "/_id" (VStr "other")]);
   Save (VObj [("_id", VStr "other"); ("name", VStr "Launch Party");
               ("host", VStr "u1")])].
Proof. reflexivity. Qed.

(** The scenario of the specification: renaming an event by patch. *)
Example patch_rename :
  patch (req "A" (VArr [replace_op "/name" (VStr "Renamed")])) world0 =
  (Return (Fulfilled ResObject),
   mkWorld [[("_id", VStr "A"); ("name", VStr "Renamed"); ("host", VStr "u1")];
            picnic]
           [Status 200;
            Json (VObj [("_id", VStr "A"); ("name", VStr "Renamed");
                        ("host", VStr "u1")])]
           [FindById "A" [];
            JsonpatchApply (VObj launch)
                           (VArr [replace_op "/name" (VStr "Renamed")]);
            Save (VObj [("_id", VStr "A"); ("name", VStr "Renamed");
                        ("host", VStr "u1")])]).
Proof. reflexivity. Qed.

(** Creation: 201, with the submitted fields and an assigned identifier. *)
Example create_launch :
  res (snd (create (req "" (VObj [("name", VStr "Launch Party");
                                  ("host", VStr "u1")]))
                   (mkWorld [] [] []))) =
  [Status 201;
   Json (VObj [("_id", VStr "evt0"); ("name", VStr "Launch Party");
               ("host", VStr "u1")])].
Proof. reflexivity. Qed.

(** show and destroy on an identifier no event has stop at the 404. *)
Example show_destroy_absent :
  res (snd (show (req "Z" VUndefined) world0)) = [Status 404; End] /\
  res (snd (destroy (req "Z" VUndefined) world0)) = [Status 404; End] /\
  calls (snd (destroy (req "Z" VUndefined) world0)) = [FindById "Z" []].
Proof. repeat split. Qed.

(** ** Runs of the further properties *)

(** Stripping [_id: "other"] keeps the name. *)
Lemma strip_id_only_removes_id_witness :
  strip_id body_other = Return (VObj [("name", VStr "x")]) /\
  field "name" (VObj [("name", VStr "x")]) = field "name" body_other /\
  strip_id (VObj [("name", VStr "x")]) = Return (VObj [("name", VStr "x")]).
Proof.
  pose proof (strip_id_only_removes_id body_other
                (VObj [("name", VStr "x")]) eq_refl) as (Hframe & _ & Hidem).
  split; [reflexivity|]. split; [|exact Hidem].
  exact (Hframe "name" ltac:(discriminate)).
Defined.

(** A patch that renames: lookup, application, save. *)
Lemma patch_call_protocol_witness :
  strip_id (VArr [replace_op "/name" (VStr "Renamed")]) =
    Return (VArr [replace_op "/name" (VStr "Renamed")]) /\
  (calls (snd (patch (req "A" (VArr [replace_op "/name" (VStr "Renamed")]))
                     world0)) = [FindById "A" []] \/
   (exists entity,
      calls (snd (patch (req "A" (VArr [replace_op "/name" (VStr "Renamed")]))
                        world0)) =
        [FindById "A" [];
         JsonpatchApply entity (VArr [replace_op "/name" (VStr "Renamed")])] /\
      db (snd (patch (req "A" (VArr [replace_op "/name" (VStr "Renamed")]))
                     world0)) = db world0) \/
   (exists d e,
      lookup_id "A" (db world0) = Some d /\
      jsonpatch_apply (VObj d) (VArr [replace_op "/name" (VStr "Renamed")]) =
        Patched (VObj e) /\
      calls (snd (patch (req "A" (VArr [replace_op "/name" (VStr "Renamed")]))
                        world0)) =
        [FindById "A" [];
         JsonpatchApply (VObj d) (VArr [replace_op "/name" (VStr "Renamed")]);
         Save (VObj e)])).
Proof.
  split; [reflexivity|].
  exact (patch_call_protocol (mkParams "A" "" "" "" "")
           (VArr [replace_op "/name" (VStr "Renamed")])
           (VArr [replace_op "/name" (VStr "Renamed")]) world0 eq_refl).
Defined.

(** Renaming event A: 200, A stored under its new name, B untouched. *)
Lemma patch_saves_the_patched_entity_witness :
  jsonpatch_apply (VObj launch) (VArr [replace_op "/name" (VStr "Renamed")]) =
    Patched (VObj [("_id", VStr "A"); ("name", VStr "Renamed");
                   ("host", VStr "u1")]) /\
  res (snd (patch (req "A" (VArr [replace_op "/name" (VStr "Renamed")]))
                  world0)) =
    [Status 200; Json (VObj [("_id", VStr "A"); ("name", VStr "Renamed");
                             ("host", VStr "u1")])] /\
  lookup_id "B" (db (snd (patch (req "A" (VArr [replace_op "/name"
                                                   (VStr "Renamed")]))
                                world0))) = Some picnic.
Proof.
  pose proof (patch_saves_the_patched_entity (mkParams "A" "" "" "" "")
                [replace_op "/name" (VStr "Renamed")] launch
                [("_id", VStr "A"); ("name", VStr "Renamed");
                 ("host", VStr "u1")]
                world0 eq_refl eq_refl eq_refl eq_refl) as (Hrun & _ & Hframe).
  split; [reflexivity|].
  change (patch (mkRequest (mkParams "A" "" "" "" "")
                   (VArr [replace_op "/name" (VStr "Renamed")])) world0)
    with (patch (req "A" (VArr [replace_op "/name" (VStr "Renamed")])) world0)
    in Hrun.
  rewrite Hrun. split; [reflexivity|].
  exact (Hframe "B" ltac:(discriminate)).
Defined.

(** Creating an event in an empty collection, then showing it. *)
Lemma create_then_show_witness :
  lookup_id "evt0" [] = None /\
  create (req "" (VObj [("name", VStr "Launch Party"); ("host", VStr "u1")]))
         (mkWorld [] [] []) =
  (Return (Fulfilled ResObject),
   mkWorld [[("_id", VStr "evt0"); ("name", VStr "Launch Party");
             ("host", VStr "u1")]]
           [Status 201;
            Json (VObj [("_id", VStr "evt0"); ("name", VStr "Launch Party");
                        ("host", VStr "u1")])]
           [Create (VObj [("name", VStr "Launch Party");
                          ("host", VStr "u1")])]) /\
  res (snd (show (req "evt0" VUndefined)
                 (mkWorld [[("_id", VStr "evt0");
                            ("name", VStr "Launch Party");
                            ("host", VStr "u1")]] [] []))) =
  [Status 200;
   Json (VObj [("_id", VStr "evt0"); ("name", VStr "Launch Party");
               ("host", VObj [("_id", VStr "u1"); ("name", VStr "Ann");
                              ("imageUrl", VStr "ann.png")])])].
Proof.
  pose proof (create_then_show (mkParams "" "" "" "" "")
                [("name", VStr "Launch Party"); ("host", VStr "u1")]
                (mkWorld [] [] []) eq_refl eq_refl eq_refl)
    as (Hcreate & _ & Hshow).
  split; [reflexivity|]. split; [exact Hcreate|].
  exact (f_equal (fun r => res (snd r))
           (Hshow (mkParams "evt0" "" "" "" "") VUndefined
                  (mkWorld [[("_id", VStr "evt0");
                             ("name", VStr "Launch Party");
                             ("host", VStr "u1")]] [] [])
                  eq_refl eq_refl eq_refl)).
Defined.
